(** * Resilient Supabase access: cache fallback executor and connection prober

    A shallow embedding of two classes of the repository:

    - [RobustSupabaseClient] (utils/robust-supabase): [executeWithFallback],
      [saveToCache], [getFromCache], [clearExpiredCache];
    - [SupabaseConnectionManager] (utils/connection-fallback.ts):
      [getWorkingClient], [testConnection], [recordAttempt],
      [getConnectionStats].

    Asynchronous calls are modelled by what they settle to.  The remote
    service, the timer and the clock are inputs of the model: every reading
    of [Date.now()] and every settlement of a remote call is a parameter, so
    the methods become total functions on explicit state. *)

From Stdlib Require Import ZArith QArith Qround String Ascii List Lia.
From stdpp Require Import base option list gmap strings fin_maps pretty.

Open Scope Z_scope.

(** ** JavaScript values *)

Module Js.

(** The values an operation may produce ([T] is unconstrained in the
    source).  Objects, arrays and functions are opaque references. *)
Inductive Value : Type :=
| Undefined
| Null
| Bool (b : bool)
| Number (n : Z)
| NaNValue
| Str (s : string)
| Object (ref : positive).

(** [ToBoolean]: what [if (x)] and [a && x] test. *)
Definition truthy (v : Value) : bool :=
  match v with
  | Undefined | Null | NaNValue => false
  | Bool b => b
  | Number n => negb (n =? 0)
  | Str s => negb (String.eqb s EmptyString)
  | Object _ => true
  end.

(** [ToBoolean] of a string, used on [cacheKey]. *)
Definition truthy_string (s : string) : bool :=
  negb (String.eqb s EmptyString).

(** An [Error] object, as far as the code looks at it: its [message].
    This is what the calls built on the supabase-js client and the timers
    reject with.  A value that is not an object, [null] or [undefined], can
    come only from an operation a caller hands in; reading [error.message]
    of it throws, and the functions that take such an operation
    ([Executor.executeWithFallbackAny], [Retry.retryLoop]) have a case of
    their own for it. *)
Record Error : Type := mkError { message : string }.

(** How an awaited promise settles. *)
Inductive Settled (A : Type) : Type :=
| Fulfilled (a : A)
| Rejected (e : Error).
Arguments Fulfilled {A} a.
Arguments Rejected {A} e.

(** [String.prototype.includes]. *)
Fixpoint includes (needle hay : string) : bool :=
  String.prefix needle hay
  || match hay with
     | EmptyString => false
     | String _ rest => includes needle rest
     end.

(** Numbers as [getConnectionStats] computes with them: exact rationals
    for the finite values (the rounding of IEEE doubles is not modelled),
    and the three special values a division can produce. *)
Inductive Num : Type :=
| Finite (q : Q)
| NaN
| PosInfinity
| NegInfinity.

(** [a / b] on integer-valued operands: division by zero does not throw,
    it yields [NaN] or an infinity. *)
Definition divide (a b : Z) : Num :=
  if b =? 0 then
    if a =? 0 then NaN
    else if 0 <? a then PosInfinity else NegInfinity
  else Finite (inject_Z a / inject_Z b).

(** [x * 100]. *)
Definition times100 (x : Num) : Num :=
  match x with
  | Finite q => Finite (q * 100)
  | other => other
  end.

(** [x || 0]: [NaN] and zero are falsy. *)
Definition orZero (x : Num) : Num :=
  match x with
  | Finite q => if Qeq_bool q 0 then Finite 0 else Finite q
  | NaN => Finite 0
  | other => other
  end.

(** [Math.round]: the nearest integer, halves towards positive infinity. *)
Definition round (x : Num) : Num :=
  match x with
  | Finite q => Finite (inject_Z (Qfloor (q + (1 # 2))))
  | other => other
  end.

End Js.

(** ** The executor: [RobustSupabaseClient] *)

Module Executor.
Import Js.

(** An entry of the [cache] map: [{ data, timestamp }]. *)
Record CacheEntry : Type := mkEntry { data : Value; timestamp : Z }.

(** [private readonly CACHE_TTL = 5 * 60 * 1000]. *)
Definition CACHE_TTL : Z := 5 * 60 * 1000.

(** The mutable part of an instance is its [cache]; the wrapped [client]
    is only handed to the operations the callers build.  The class declares
    [client], [cache] and [CACHE_TTL]; the delay [this.timeout] handed to
    [setTimeout] is a property no line of the class declares or assigns, so
    the instance carries no field for it and when the timer fires is left to
    [Race] below. *)
Record RobustSupabaseClient : Type := mkClient {
  cache : gmap string CacheEntry
}.

(** The constructor starts from [new Map()]. *)
Definition new : RobustSupabaseClient := {| cache := ∅ |}.

(** [saveToCache(key, data)]; [now] is the reading of [Date.now()]. *)
Definition saveToCache (now : Z) (key : string) (d : Value)
           (c : RobustSupabaseClient) : RobustSupabaseClient :=
  {| cache := <[key := {| data := d; timestamp := now |}]> (cache c) |}.

(** [now - timestamp > CACHE_TTL]. *)
Definition isExpired (now : Z) (e : CacheEntry) : bool :=
  CACHE_TTL <? now - timestamp e.

(** [getFromCache(key, ignoreTTL)]: [null] when the key is missing, or
    when the entry is expired and [ignoreTTL] is off. *)
Definition getFromCache (now : Z) (key : string) (ignoreTTL : bool)
           (c : RobustSupabaseClient) : Value :=
  match cache c !! key with
  | None => Null
  | Some cached =>
      if isExpired now cached && negb ignoreTTL then Null else data cached
  end.

(** One step of the loop of [clearExpiredCache]; [live] is the map being
    mutated while its entries are visited. *)
Definition sweepEntry (now : Z) (key : string) (value : CacheEntry)
           (live : gmap string CacheEntry) : gmap string CacheEntry :=
  if CACHE_TTL <? now - timestamp value then delete key live else live.

(** [clearExpiredCache()]: visit every entry, delete the expired ones
    from the map itself. *)
Definition clearExpiredCache (now : Z) (c : RobustSupabaseClient)
  : RobustSupabaseClient :=
  {| cache := map_fold (sweepEntry now) (cache c) (cache c) |}.

(** What [Promise.race([operation(), timer])] observes: the operation
    settles first, or the timer rejects while it is still pending. *)
Inductive Race : Type :=
| OperationSettles (s : Settled Value)
| TimerFires.

(** The rejection produced by the timer. *)
Definition timeoutError : Error := {| message := "Operation timeout" |}.

Definition race (r : Race) : Settled Value :=
  match r with
  | OperationSettles s => s
  | TimerFires => Rejected timeoutError
  end.

(** The world around one call: the clock when the call starts, how the
    race goes, and the clock when the race has settled. *)
Record Run : Type := mkRun {
  startedAt : Z;
  raced : Race;
  settledAt : Z
}.

(** A finished call: what the returned promise settles to, the instance
    afterwards, and how many times [operation()] was called. *)
Record Outcome : Type := mkOutcome {
  settled : Settled Value;
  after : RobustSupabaseClient;
  invocations : nat
}.

(** [useCache && cacheKey] with [cacheKey?: string]. *)
Definition cacheUsable (useCache : bool) (cacheKey : option string) : option string :=
  match cacheKey with
  | Some k => if useCache && truthy_string k then Some k else None
  | None => None
  end.

(** The first [if]: the value to return at once, if any. *)
Definition cacheHit (now : Z) (usable : option string)
           (c : RobustSupabaseClient) : option Value :=
  match usable with
  | Some k =>
      let cached := getFromCache now k false c in
      if truthy cached then Some cached else None
  | None => None
  end.

(** The [try] body after the race fulfilled with [result]. *)
Definition onResult (now : Z) (usable : option string) (result : Value)
           (c : RobustSupabaseClient) : Settled Value * RobustSupabaseClient :=
  match usable with
  | Some k =>
      if truthy result then (Fulfilled result, saveToCache now k result c)
      else (Fulfilled result, c)
  | None => (Fulfilled result, c)
  end.

(** The [catch] block for a caught object, whose [error.message] line 67
    reads without more ado: the fallback lookup and the [throw].  For a
    caught [null] or [undefined] see [resumeAny]. *)
Definition onError (now : Z) (usable : option string) (error : Error)
           (c : RobustSupabaseClient) : Settled Value * RobustSupabaseClient :=
  match usable with
  | Some k =>
      let cached := getFromCache now k true c in
      if truthy cached then (Fulfilled cached, c) else (Rejected error, c)
  | None => (Rejected error, c)
  end.

(** The part of a call that runs once the race has settled, the race
    being one that fulfils, rejects with an object or is lost to the
    timer. *)
Definition resume (now : Z) (usable : option string) (r : Race)
           (c : RobustSupabaseClient) : Settled Value * RobustSupabaseClient :=
  match race r with
  | Fulfilled result => onResult now usable result c
  | Rejected error => onError now usable error c
  end.

(** [executeWithFallback(operation, cacheKey, useCache)] for an operation
    that fulfils or rejects with an object, as the calls wrapped in this
    repository do; [executeWithFallbackAny] is the method for any
    operation. *)
Definition executeWithFallback (w : Run) (cacheKey : option string)
           (useCache : bool) (c : RobustSupabaseClient) : Outcome :=
  let usable := cacheUsable useCache cacheKey in
  match cacheHit (startedAt w) usable c with
  | Some cached =>
      {| settled := Fulfilled cached; after := c; invocations := 0 |}
  | None =>
      let '(s, c') := resume (settledAt w) usable (raced w) c in
      {| settled := s; after := c'; invocations := 1 |}
  end.

(** The states an instance can be in: fresh from the constructor, after a
    whole call, after the second half of a call whose [await] let other
    calls run in between, or after a sweep.  The cache is private, so
    nothing else writes it. *)
Inductive reachable : RobustSupabaseClient → Prop :=
| reachable_new : reachable new
| reachable_call w key useCache c :
    reachable c → reachable (after (executeWithFallback w key useCache c))
| reachable_resume now key useCache r c :
    reachable c → reachable (snd (resume now (cacheUsable useCache key) r c))
| reachable_sweep now c :
    reachable c → reachable (clearExpiredCache now c).

(** What every stored entry satisfies: it was saved under a truthy key and
    holds a truthy value. *)
Definition wellFormed (c : RobustSupabaseClient) : Prop :=
  ∀ k e, cache c !! k = Some e → k ≠ EmptyString ∧ truthy (data e) = true.

(** The age of an entry at a reading [now] of the clock. *)
Definition age (now : Z) (e : CacheEntry) : Z := now - timestamp e.

(** The entry the [catch] block can fall back on: the one stored under the
    key, when caching is on and a key was given. *)
Definition fallbackEntry (usable : option string) (c : RobustSupabaseClient)
  : option CacheEntry :=
  match usable with
  | Some k => cache c !! k
  | None => None
  end.

(** What a call settles to once the race has rejected with [err]. *)
Definition afterFailure (usable : option string) (c : RobustSupabaseClient)
           (err : Error) : Settled Value :=
  match fallbackEntry usable c with
  | Some ent => if truthy (data ent) then Fulfilled (data ent) else Rejected err
  | None => Rejected err
  end.

(** [getUserById(userId)]: cached under [`user_${userId}`]. *)
Definition getUserById (w : Run) (userId : string) (c : RobustSupabaseClient)
  : Outcome :=
  executeWithFallback w (Some ("user_" +:+ userId)) true c.

(** [createUser(userData)]: no key, caching off. *)
Definition createUser (w : Run) (c : RobustSupabaseClient) : Outcome :=
  executeWithFallback w None false c.

(** [listUsers(options)]: cached under
    [`users_list_${JSON.stringify(options)}`]; [optionsJson] is the text
    [JSON.stringify] gives for the options. *)
Definition listUsers (w : Run) (optionsJson : string) (c : RobustSupabaseClient)
  : Outcome :=
  executeWithFallback w (Some ("users_list_" +:+ optionsJson)) true c.

(** [testConnection()]: [true] when the wrapped call returns, [false] when
    it throws. *)
Definition testConnection (w : Run) (c : RobustSupabaseClient)
  : bool * RobustSupabaseClient :=
  match settled (executeWithFallback w None false c) with
  | Fulfilled _ => (true, after (executeWithFallback w None false c))
  | Rejected _ => (false, after (executeWithFallback w None false c))
  end.

(** The race of any operation against the timer.  [Race] covers the
    operations that fulfil or reject with an object.  An operation handed in
    by a caller may also reject with [null] or [undefined]: the first line of
    the [catch] (line 67) reads [error.message] of what it caught, which
    throws a [TypeError] for these two.  The text of that error is the
    engine's, so the model takes the error as given. *)
Inductive AnyRace : Type :=
| RaceOfObjects (r : Race)
| OperationRejectsNullish (typeError : Error).

(** The world around one call of any operation: the clock when the call
    starts, how the race goes, and the clock when the race has settled. *)
Record AnyRun : Type := mkAnyRun {
  begunAt : Z;
  contest : AnyRace;
  endedAt : Z
}.

(** What a call makes of the race when no cache entry comes into play: the
    fulfilled value, the rejection of the operation or of the timer, or the
    [TypeError] of the [catch]. *)
Definition settlesAs (r : AnyRace) : Settled Value :=
  match r with
  | RaceOfObjects r => race r
  | OperationRejectsNullish typeError => Rejected typeError
  end.

(** The part of a call that runs once the race has settled, for any
    operation: on a [null] or [undefined] rejection the [catch] throws at
    its first line, before the cache is looked at. *)
Definition resumeAny (now : Z) (usable : option string) (r : AnyRace)
           (c : RobustSupabaseClient) : Settled Value * RobustSupabaseClient :=
  match r with
  | RaceOfObjects r => resume now usable r c
  | OperationRejectsNullish typeError => (Rejected typeError, c)
  end.

(** [executeWithFallback(operation, cacheKey, useCache)] for any
    operation. *)
Definition executeWithFallbackAny (w : AnyRun) (cacheKey : option string)
           (useCache : bool) (c : RobustSupabaseClient) : Outcome :=
  let usable := cacheUsable useCache cacheKey in
  match cacheHit (begunAt w) usable c with
  | Some cached =>
      {| settled := Fulfilled cached; after := c; invocations := 0 |}
  | None =>
      let '(s, c') := resumeAny (endedAt w) usable (contest w) c in
      {| settled := s; after := c'; invocations := 1 |}
  end.

End Executor.

(** ** The prober: [SupabaseConnectionManager] *)

Module Prober.
Import Js.

(** [interface ConnectionAttempt]. *)
Record ConnectionAttempt : Type := mkAttempt {
  success : bool;
  latency : Z;
  error : option string
}.

(** The options handed to [createClient]: every candidate sets the same
    [auth] flags, so what distinguishes them is the [Connection] header
    and the timeout of the custom [fetch], when present. *)
Record ClientOptions : Type := mkOptions {
  connectionHeader : option string;
  fetchTimeout : option Z
}.

Record Candidate : Type := mkCandidate {
  name : string;
  config : ClientOptions
}.

(** The list built at the start of [getWorkingClient]. *)
Definition configurations : list Candidate :=
  [ {| name := "Fast timeout";
       config := {| connectionHeader := Some "close"; fetchTimeout := Some 5000 |} |};
    {| name := "Medium timeout with keep-alive";
       config := {| connectionHeader := Some "keep-alive"; fetchTimeout := Some 10000 |} |};
    {| name := "Long timeout basic";
       config := {| connectionHeader := None; fetchTimeout := Some 20000 |} |};
    {| name := "Default configuration";
       config := {| connectionHeader := None; fetchTimeout := None |} |} ].

(** A client is what [createClient(url, serviceKey, options)] was given;
    the call itself is taken to return. *)
Record SupabaseClient : Type := createClient {
  url : string;
  serviceKey : string;
  options : ClientOptions
}.

Record SupabaseConnectionManager : Type := mkManager {
  connectionHistory : list ConnectionAttempt;
  lastSuccessfulConfig : option ClientOptions
}.

(** A fresh instance: empty history, [lastSuccessfulConfig = null]. *)
Definition new : SupabaseConnectionManager :=
  {| connectionHistory := []; lastSuccessfulConfig := None |}.

(** [recordAttempt(success, latency, error)]: push, then drop the oldest
    record when more than ten are held. *)
Definition recordAttempt (ok : bool) (lat : Z) (err : option string)
           (m : SupabaseConnectionManager) : SupabaseConnectionManager :=
  let pushed := connectionHistory m ++ [ {| success := ok; latency := lat; error := err |} ] in
  {| connectionHistory := if (10 <? length pushed)%nat then tail pushed else pushed;
     lastSuccessfulConfig := lastSuccessfulConfig m |}.

(** One answer of [client.auth.admin.listUsers({ page: 1, perPage: 1 })]:
    the call throws, or returns a response whose [error] field is [null]
    or an error; [elapsed] is [Date.now() - startTime] once it returned. *)
Record Probe : Type := mkProbe {
  reply : Settled (option Error);
  elapsed : Z
}.

(** [error.message.includes('No users')]: the remote answer that stands
    for an empty result at this call site. *)
Definition isEmptyResult (e : Error) : bool :=
  includes "No users" (message e).

(** [testConnection(client)]: [throw error] when the response carries an
    error other than the empty result, [recordAttempt(true, latency)]
    otherwise.  A throw of [listUsers] itself passes through. *)
Definition testConnection (p : Probe) (m : SupabaseConnectionManager)
  : Settled unit * SupabaseConnectionManager :=
  match reply p with
  | Rejected thrown => (Rejected thrown, m)
  | Fulfilled (Some e) =>
      if negb (isEmptyResult e) then (Rejected e, m)
      else (Fulfilled tt, recordAttempt true (elapsed p) None m)
  | Fulfilled None => (Fulfilled tt, recordAttempt true (elapsed p) None m)
  end.

(** The error thrown after the loop. *)
Definition allFailedError : Error :=
  {| message := "❌ Todas as configurações de conexão falharam" |}.

(** A finished [getWorkingClient]: what it settles to, the manager
    afterwards, and the clients that were probed, in order. *)
Record Outcome : Type := mkOutcome {
  settled : Settled SupabaseClient;
  after : SupabaseConnectionManager;
  probed : list SupabaseClient
}.

Definition remember (cfg : ClientOptions) (m : SupabaseConnectionManager)
  : SupabaseConnectionManager :=
  {| connectionHistory := connectionHistory m; lastSuccessfulConfig := Some cfg |}.

(** The [for] loop over the candidates and the final [throw].  [net n] is
    the answer to the [n]-th probe of this call; [log] holds the clients
    probed so far. *)
Fixpoint tryConfigurations (net : nat → Probe) (u k : string)
         (candidates : list Candidate) (log : list SupabaseClient)
         (m : SupabaseConnectionManager) : Outcome :=
  match candidates with
  | [] => {| settled := Rejected allFailedError; after := m; probed := log |}
  | cand :: rest =>
      let client := createClient u k (config cand) in
      match testConnection (net (length log)) m with
      | (Fulfilled _, m') =>
          {| settled := Fulfilled client;
             after := remember (config cand) m';
             probed := log ++ [client] |}
      | (Rejected e, m') =>
          tryConfigurations net u k rest (log ++ [client])
            (recordAttempt false 0 (Some (message e)) m')
      end
  end.

(** [getWorkingClient(url, serviceKey)]. *)
Definition getWorkingClient (net : nat → Probe) (u k : string)
           (m : SupabaseConnectionManager) : Outcome :=
  match lastSuccessfulConfig m with
  | Some cfg =>
      let client := createClient u k cfg in
      match testConnection (net 0%nat) m with
      | (Fulfilled _, m') =>
          {| settled := Fulfilled client; after := m'; probed := [client] |}
      | (Rejected _, m') =>
          tryConfigurations net u k configurations [client] m'
      end
  | None => tryConfigurations net u k configurations [] m
  end.

(** The object returned by [getConnectionStats]. *)
Record Stats : Type := mkStats {
  total : nat;
  successful : nat;
  successRate : Num;
  averageLatency : Num
}.

Definition successes (h : list ConnectionAttempt) : list ConnectionAttempt :=
  List.filter success h.

(** [.reduce((sum, a) => sum + a.latency, 0)]. *)
Definition sumLatency (h : list ConnectionAttempt) : Z :=
  fold_left (fun sum a => sum + latency a) h 0.

(** [getConnectionStats()]. *)
Definition getConnectionStats (m : SupabaseConnectionManager) : Stats :=
  let total := length (connectionHistory m) in
  let successful := length (successes (connectionHistory m)) in
  let avgLatency :=
    orZero (divide (sumLatency (successes (connectionHistory m))) (Z.of_nat successful)) in
  {| total := total;
     successful := successful;
     successRate :=
       if (0 <? total)%nat
       then times100 (divide (Z.of_nat successful) (Z.of_nat total))
       else Finite 0;
     averageLatency := round avgLatency |}.

(** The error a probe makes [testConnection] throw, if any. *)
Definition probeError (p : Probe) : option Error :=
  match reply p with
  | Rejected thrown => Some thrown
  | Fulfilled (Some e) => if isEmptyResult e then None else Some e
  | Fulfilled None => None
  end.

(** The record the [catch] of the loop pushes for an error. *)
Definition failedAttempt (e : Error) : ConnectionAttempt :=
  {| success := false; latency := 0; error := Some (message e) |}.

(** How many probes precede the candidate loop: one when a configuration
    is remembered, none otherwise. *)
Definition probesBeforeLoop (m : SupabaseConnectionManager) : nat :=
  match lastSuccessfulConfig m with
  | Some _ => 1
  | None => 0
  end.

(** The manager after the [catch] of the loop ran for each error in turn. *)
Definition recordFailures (es : list Error) (m : SupabaseConnectionManager)
  : SupabaseConnectionManager :=
  foldl (λ m' e, recordAttempt false 0 (Some (message e)) m') m es.

(** The states a manager can be in: fresh, or after a call of
    [getWorkingClient], the one method that writes its fields. *)
Inductive reachable : SupabaseConnectionManager → Prop :=
| reachable_new : reachable new
| reachable_call net u k m :
    reachable m → reachable (after (getWorkingClient net u k m)).

(** [recordAttempt] for each record of a list in turn. *)
Definition recordAll (attempts : list ConnectionAttempt)
           (m : SupabaseConnectionManager) : SupabaseConnectionManager :=
  foldl (λ m' a, recordAttempt (success a) (latency a) (error a) m') m attempts.

(** The client the loop builds for a candidate. *)
Definition clientOf (u k : string) (cand : Candidate) : SupabaseClient :=
  createClient u k (config cand).

End Prober.

(** ** Health checks: [checkSupabaseHealth], [waitForSupabaseConnection] *)

Module Health.
Import Js.

(** [interface ConnectionHealth]. *)
Record ConnectionHealth : Type := mkHealth {
  isHealthy : bool;
  latency : option Z;
  error : option string
}.

(** What [Promise.race([query, timeoutPromise])] observes.  A throw of
    [createClient], inside the same [try], ends in the same [catch] as a
    rejection of the query. *)
Inductive Race : Type :=
| QuerySettles (s : Settled Value)
| TimerFires.

(** The rejection of [timeoutPromise]. *)
Definition timeoutError : Error := {| message := "Connection timeout" |}.

Definition race (r : Race) : Settled Value :=
  match r with
  | QuerySettles s => s
  | TimerFires => Rejected timeoutError
  end.

(** The world around one check: [Date.now()] at the start, the race, and
    [Date.now()] once the race has settled. *)
Record Check : Type := mkCheck {
  startTime : Z;
  raced : Race;
  endTime : Z
}.

(** [error.message || fallback]. *)
Definition messageOr (fallback : string) (e : Error) : string :=
  if truthy_string (message e) then message e else fallback.

(** [checkSupabaseHealth(url, serviceKey, timeoutMs)]. *)
Definition checkSupabaseHealth (k : Check) : ConnectionHealth :=
  match race (raced k) with
  | Fulfilled _ =>
      {| isHealthy := true; latency := Some (endTime k - startTime k); error := None |}
  | Rejected e =>
      {| isHealthy := false;
         latency := Some (endTime k - startTime k);
         error := Some (messageOr "Unknown connection error" e) |}
  end.

(** A finished [waitForSupabaseConnection]: how it settles, how many health
    checks it ran, and the delays it slept, in order. *)
Record Waited : Type := mkWaited {
  settled : Settled unit;
  checks : nat;
  slept : list Z
}.

(** The error of the last attempt; [`${health.error}`] prints a missing
    field as "undefined". *)
Definition failedToConnect (maxRetries : Z) (health : ConnectionHealth) : Error :=
  {| message := "❌ Failed to connect to Supabase after " +:+ pretty maxRetries
                +:+ " attempts: " +:+ from_option id "undefined" (error health) |}.

(** The [for] loop, [attempt] running from 1 while [attempt <= maxRetries]:
    [left] counts the iterations still to come, [done] the checks made so
    far; [world n] is the world around the [n]-th check. *)
Fixpoint waitLoop (world : nat → Check) (maxRetries baseDelay : Z)
         (left : nat) (attempt : Z) (done : nat) (naps : list Z) : Waited :=
  match left with
  | O => {| settled := Fulfilled tt; checks := done; slept := naps |}
  | S left' =>
      let health := checkSupabaseHealth (world done) in
      if isHealthy health then
        {| settled := Fulfilled tt; checks := S done; slept := naps |}
      else if attempt =? maxRetries then
        {| settled := Rejected (failedToConnect maxRetries health);
           checks := S done; slept := naps |}
      else
        waitLoop world maxRetries baseDelay left' (attempt + 1) (S done)
          (naps ++ [baseDelay * 2 ^ (attempt - 1)])
  end.

(** [waitForSupabaseConnection(url, serviceKey, maxRetries, baseDelay)]. *)
Definition waitForSupabaseConnection (world : nat → Check)
           (maxRetries baseDelay : Z) : Waited :=
  waitLoop world maxRetries baseDelay (Z.to_nat maxRetries) 1 0 [].

(** The delays slept after the attempts [from+1 .. from+n] failed. *)
Definition backoff (baseDelay : Z) (from n : nat) : list Z :=
  (λ j, baseDelay * 2 ^ Z.of_nat j) <$> seq from n.

End Health.

(** ** The database probe: [testDatabaseConnection] *)

Module Database.
Import Js.

(** The object [testDatabaseConnection] resolves to. *)
Record ConnectionTest : Type := mkTest {
  success : bool;
  latency : option Z;
  error : option string
}.

(** [testDatabaseConnection(url, serviceKey)].  [response] is what
    [.single()] settles to, as far as its [error] field; [clock n] is the
    [n]-th reading of [Date.now()] in the call: the start, then one after
    the [await], then one in the [catch] when the [try] threw after it. *)
Definition testDatabaseConnection (clock : nat → Z)
           (response : Settled (option Error)) : ConnectionTest :=
  match response with
  | Rejected thrown =>
      {| success := false;
         latency := Some (clock 1%nat - clock 0%nat);
         error := Some (Health.messageOr "Unknown database error" thrown) |}
  | Fulfilled (Some e) =>
      if negb (includes "No rows" (message e)) then
        {| success := false;
           latency := Some (clock 2%nat - clock 0%nat);
           error := Some (Health.messageOr "Unknown database error" e) |}
      else
        {| success := true; latency := Some (clock 1%nat - clock 0%nat); error := None |}
  | Fulfilled None =>
      {| success := true; latency := Some (clock 1%nat - clock 0%nat); error := None |}
  end.

End Database.

(** ** The seed helper: [retryWithBackoff] *)

Module Retry.
Import Js.

(** An object the operation throws, as far as the [catch] looks at it:
    [error.message] and [error.code], either of which may be missing. *)
Record Thrown : Type := mkThrown {
  message : option string;
  code : option string
}.

(** How one call of [operation()] ends: it returns, it throws an object,
    or it throws [null] or [undefined].  In the last case the first line of
    the [catch] (line 15) reads [error.message] of the caught value, and
    that throws a [TypeError] ([?.] guards the message, not the error); its
    text is the engine's, so the model takes that error as given. *)
Inductive Attempt : Type :=
| Returns (v : Value)
| Throws (e : Thrown)
| ThrowsNullish (typeError : Thrown).

(** [error.message?.includes(needle)] as a condition. *)
Definition messageIncludes (needle : string) (e : Thrown) : bool :=
  match message e with
  | Some m => includes needle m
  | None => false
  end.

(** [error.code === text]. *)
Definition codeIs (text : string) (e : Thrown) : bool :=
  match code e with
  | Some c => String.eqb c text
  | None => false
  end.

Definition isConnectionError (e : Thrown) : bool :=
  messageIncludes "CONNECT_TIMEOUT" e
  || messageIncludes "connection" e
  || codeIs "ECONNRESET" e
  || codeIs "ETIMEDOUT" e.

(** The error thrown after the loop. *)
Definition maxRetriesExceeded : Thrown :=
  {| message := Some "Max retries exceeded"; code := None |}.

(** A finished [retryWithBackoff]: how it ends (with a value or with an
    object thrown), how many times [operation()] was called, and the delays
    it slept, in order. *)
Record Retried : Type := mkRetried {
  result : Attempt;
  invocations : nat;
  slept : list Z
}.

(** The [for] loop, [attempt] running from 1 while [attempt <= maxRetries]:
    [left] counts the iterations still to come, [done] the calls made so
    far; [operation n] is how the [n]-th call ends. *)
Fixpoint retryLoop (operation : nat → Attempt) (maxRetries baseDelay : Z)
         (left : nat) (attempt : Z) (done : nat) (naps : list Z) : Retried :=
  match left with
  | O => {| result := Throws maxRetriesExceeded; invocations := done; slept := naps |}
  | S left' =>
      match operation done with
      | Returns v => {| result := Returns v; invocations := S done; slept := naps |}
      | Throws e =>
          if (attempt =? maxRetries) || negb (isConnectionError e) then
            {| result := Throws e; invocations := S done; slept := naps |}
          else
            retryLoop operation maxRetries baseDelay left' (attempt + 1) (S done)
              (naps ++ [baseDelay * 2 ^ (attempt - 1)])
      | ThrowsNullish typeError =>
          {| result := Throws typeError; invocations := S done; slept := naps |}
      end
  end.

(** [retryWithBackoff(operation, maxRetries, baseDelay)]. *)
Definition retryWithBackoff (operation : nat → Attempt)
           (maxRetries baseDelay : Z) : Retried :=
  retryLoop operation maxRetries baseDelay (Z.to_nat maxRetries) 1 0 [].

End Retry.

(** ** Properties of the executor *)

Module ExecutorProps.
Import Js Executor.

Lemma truthy_string_nonempty (s : string) :
  truthy_string s = true ↔ s ≠ EmptyString.
Proof.
  unfold truthy_string.
  destruct (String.eqb_spec s EmptyString); simpl; split; congruence.
Qed.

Lemma isExpired_age now e : isExpired now e = true ↔ age now e > CACHE_TTL.
Proof. unfold isExpired, age. rewrite Z.ltb_lt. lia. Qed.

Lemma notExpired_age now e : isExpired now e = false ↔ age now e ≤ CACHE_TTL.
Proof. unfold isExpired, age. rewrite Z.ltb_ge. lia. Qed.

(** The loop of the sweep, started on any live map [acc]: the keys of
    expired visited entries are gone, every other key reads as in [acc]. *)
Lemma sweep_lookup now (acc m : gmap string CacheEntry) k :
  map_fold (sweepEntry now) acc m !! k =
  match m !! k with
  | Some e => if isExpired now e then None else acc !! k
  | None => acc !! k
  end.
Proof.
  revert k.
  apply (map_fold_weak_ind
           (λ r m', ∀ k, r !! k = match m' !! k with
                               | Some e => if isExpired now e then None else acc !! k
                               | None => acc !! k
                               end)).
  - intros k. by rewrite lookup_empty.
  - intros i x m' r Hi IH k. unfold sweepEntry.
    destruct (decide (i = k)) as [->|Hne].
    + rewrite lookup_insert_eq. unfold isExpired.
      destruct (CACHE_TTL <? now - timestamp x).
      * apply lookup_delete_eq.
      * rewrite IH, Hi. done.
    + rewrite lookup_insert_ne by done.
      destruct (CACHE_TTL <? now - timestamp x).
      * rewrite lookup_delete_ne by done. apply IH.
      * apply IH.
Qed.

Lemma clearExpiredCache_lookup now c k :
  cache (clearExpiredCache now c) !! k =
  match cache c !! k with
  | Some e => if isExpired now e then None else Some e
  | None => None
  end.
Proof.
  unfold clearExpiredCache; simpl. rewrite sweep_lookup.
  destruct (cache c !! k) as [e|] eqn:E; [|done].
  by destruct (isExpired now e).
Qed.

Lemma client_eq c1 c2 : cache c1 = cache c2 → c1 = c2.
Proof. destruct c1, c2; simpl; congruence. Qed.

(** C5: at any reading [now] of the clock and for any cache, the sweep
    removes exactly the entries whose age exceeds the TTL (an entry is gone
    afterwards iff it was older than TTL; an entry within TTL is still
    there, unchanged; no key appears), and a second sweep at the same
    reading changes nothing. *)
Theorem clearExpiredCache_exact_and_idempotent :
  ∀ (now : Z) (c : RobustSupabaseClient),
    (∀ k e, cache c !! k = Some e →
            (age now e > CACHE_TTL → cache (clearExpiredCache now c) !! k = None)
            ∧ (age now e ≤ CACHE_TTL → cache (clearExpiredCache now c) !! k = Some e))
    ∧ (∀ k, cache c !! k = None → cache (clearExpiredCache now c) !! k = None)
    ∧ clearExpiredCache now (clearExpiredCache now c) = clearExpiredCache now c.
Proof.
  intros now c. split; [|split].
  - intros k e Hk. rewrite clearExpiredCache_lookup, Hk. split; intros Hage.
    + apply isExpired_age in Hage. by rewrite Hage.
    + apply notExpired_age in Hage. by rewrite Hage.
  - intros k Hk. by rewrite clearExpiredCache_lookup, Hk.
  - apply client_eq, map_eq. intros k.
    rewrite !clearExpiredCache_lookup.
    destruct (cache c !! k) as [e|] eqn:E; [|done].
    destruct (isExpired now e) eqn:X; [done|]. by rewrite X.
Qed.

(** *** The invariant of the cache *)

Lemma cacheUsable_Some useCache key k :
  cacheUsable useCache key = Some k ↔ key = Some k ∧ useCache = true ∧ k ≠ EmptyString.
Proof.
  unfold cacheUsable. split.
  - destruct key as [k'|]; [|done].
    destruct useCache; [|done]. simpl.
    destruct (truthy_string k') eqn:T; [|done].
    intros [= ->]. by apply truthy_string_nonempty in T.
  - intros (-> & -> & Hk). simpl.
    apply truthy_string_nonempty in Hk. by rewrite Hk.
Qed.

Lemma cacheUsable_given k : k ≠ EmptyString → cacheUsable true (Some k) = Some k.
Proof. intros. by apply cacheUsable_Some. Qed.

Lemma cacheUsable_empty_key useCache : cacheUsable useCache (Some EmptyString) = None.
Proof. unfold cacheUsable. by destruct useCache. Qed.

Lemma getFromCache_ignoreTTL now k c :
  getFromCache now k true c = from_option data Null (cache c !! k).
Proof.
  unfold getFromCache. destruct (cache c !! k); [|done].
  by rewrite andb_false_r.
Qed.

Lemma wellFormed_new : wellFormed new.
Proof. intros k e. unfold new; simpl. by rewrite lookup_empty. Qed.

Lemma wellFormed_save now k v c :
  k ≠ EmptyString → truthy v = true → wellFormed c → wellFormed (saveToCache now k v c).
Proof.
  intros Hk Hv Hc k' e. unfold saveToCache; simpl.
  destruct (decide (k = k')) as [->|Hne].
  - rewrite lookup_insert_eq. intros [= <-]. done.
  - rewrite lookup_insert_ne by done. apply Hc.
Qed.

Lemma wellFormed_resume now useCache key r c :
  wellFormed c → wellFormed (snd (resume now (cacheUsable useCache key) r c)).
Proof.
  intros Hc. unfold resume, onResult, onError.
  destruct (cacheUsable useCache key) as [k|] eqn:U.
  - apply cacheUsable_Some in U as (_ & _ & Hk).
    destruct (race r) as [v|err].
    + destruct (truthy v) eqn:T; simpl; [by apply wellFormed_save | done].
    + by destruct (truthy (getFromCache now k true c)).
  - by destruct (race r).
Qed.

Lemma after_call w key useCache c :
  after (executeWithFallback w key useCache c) = c
  ∨ after (executeWithFallback w key useCache c)
    = snd (resume (settledAt w) (cacheUsable useCache key) (raced w) c).
Proof.
  unfold executeWithFallback.
  destruct (cacheHit _ _ _); [by left|].
  destruct (resume _ _ _ _); by right.
Qed.

Lemma wellFormed_sweep now c : wellFormed c → wellFormed (clearExpiredCache now c).
Proof.
  intros Hc k e. rewrite clearExpiredCache_lookup.
  destruct (cache c !! k) as [e'|] eqn:E; [|done].
  destruct (isExpired now e'); [done|]. intros [= <-]. by apply Hc.
Qed.

Lemma reachable_wellFormed c : reachable c → wellFormed c.
Proof.
  induction 1 as [|w key uc c _ IH|now key uc r c _ IH|now c _ IH].
  - apply wellFormed_new.
  - destruct (after_call w key uc c) as [->| ->]; [done|by apply wellFormed_resume].
  - by apply wellFormed_resume.
  - by apply wellFormed_sweep.
Qed.

(** *** Single calls *)

(** A call that finds a fresh truthy entry under a usable key returns it
    without running the race. *)
Lemma fresh_entry_served w k c ent :
  k ≠ EmptyString →
  cache c !! k = Some ent →
  truthy (data ent) = true →
  age (startedAt w) ent ≤ CACHE_TTL →
  executeWithFallback w (Some k) true c
  = {| settled := Fulfilled (data ent); after := c; invocations := 0 |}.
Proof.
  intros Hk Hent Ht Hage. unfold executeWithFallback.
  rewrite cacheUsable_given by done. unfold cacheHit, getFromCache.
  rewrite Hent. apply notExpired_age in Hage. rewrite Hage; simpl. by rewrite Ht.
Qed.

(** A call that misses the cache runs the race once and continues with
    [resume]. *)
Lemma missed_call w key useCache c :
  cacheHit (startedAt w) (cacheUsable useCache key) c = None →
  executeWithFallback w key useCache c
  = {| settled := fst (resume (settledAt w) (cacheUsable useCache key) (raced w) c);
       after := snd (resume (settledAt w) (cacheUsable useCache key) (raced w) c);
       invocations := 1 |}.
Proof.
  intros H. unfold executeWithFallback. rewrite H.
  by destruct (resume _ _ _ _).
Qed.

Lemma invoked_iff_missed w key useCache c :
  invocations (executeWithFallback w key useCache c) = 1%nat
  ↔ cacheHit (startedAt w) (cacheUsable useCache key) c = None.
Proof.
  unfold executeWithFallback.
  destruct (cacheHit _ _ _) eqn:H; simpl.
  - split; discriminate.
  - by destruct (resume _ _ _ _).
Qed.

Lemma onError_afterFailure now usable err c :
  onError now usable err c = (afterFailure usable c err, c).
Proof.
  unfold onError, afterFailure, fallbackEntry.
  destruct usable as [k|]; [|done].
  rewrite getFromCache_ignoreTTL.
  destruct (cache c !! k) as [ent|]; simpl; [|done].
  by destruct (truthy (data ent)).
Qed.

(** *** The race (C1) *)


(** On an operation that fulfils or rejects with an object the two
    embeddings of the method agree. *)
Lemma executeWithFallbackAny_objects t0 r t1 key useCache c :
  executeWithFallbackAny (mkAnyRun t0 (RaceOfObjects r) t1) key useCache c
  = executeWithFallback (mkRun t0 r t1) key useCache c.
Proof. reflexivity. Qed.




(** *** Reading back what a call stored (C2) *)

(** Whatever truthy value a call with a usable key returns is stored under
    that key afterwards. *)
Lemma returned_value_is_stored w k c v :
  k ≠ EmptyString →
  truthy v = true →
  settled (executeWithFallback w (Some k) true c) = Fulfilled v →
  ∃ ent, cache (after (executeWithFallback w (Some k) true c)) !! k = Some ent
         ∧ data ent = v.
Proof.
  intros Hk Hv. unfold executeWithFallback.
  rewrite cacheUsable_given by done.
  destruct (cacheHit (startedAt w) (Some k) c) as [cached|] eqn:Hit; simpl.
  - intros [= ->]. unfold cacheHit in Hit.
    destruct (truthy (getFromCache (startedAt w) k false c)) eqn:T; [|done].
    injection Hit as Hit. unfold getFromCache in Hit, T.
    destruct (cache c !! k) as [ent|]; [|by subst].
    exists ent. split; [done|].
    destruct (isExpired (startedAt w) ent && negb false); [by subst|done].
  - unfold resume. destruct (race (raced w)) as [result|err].
    + unfold onResult. destruct (truthy result) eqn:T; simpl.
      * intros [= ->]. eexists. split; [apply lookup_insert_eq|done].
      * intros [= ->]. congruence.
    + rewrite onError_afterFailure; simpl. unfold afterFailure, fallbackEntry.
      destruct (cache c !! k) as [ent|]; [|done].
      destruct (truthy (data ent)); [|done].
      intros [= <-]. by exists ent.
Qed.

(** C2, as amended: for every non-empty key [k] and truthy value [v], after
    a call with caching on and key [k] that returned [v], an entry holding
    [v] is stored under [k], and every later call with the same key and
    caching on, made while that entry's age is at most the TTL, returns [v]
    without calling the operation and leaves the instance as it is. *)
Theorem fresh_value_served_without_operation :
  ∀ (w1 : Run) (k : string) (v : Value) (c : RobustSupabaseClient),
    k ≠ EmptyString →
    truthy v = true →
    settled (executeWithFallback w1 (Some k) true c) = Fulfilled v →
    ∃ ent,
      cache (after (executeWithFallback w1 (Some k) true c)) !! k = Some ent
      ∧ data ent = v
      ∧ ∀ w2, age (startedAt w2) ent ≤ CACHE_TTL →
          executeWithFallback w2 (Some k) true (after (executeWithFallback w1 (Some k) true c))
          = {| settled := Fulfilled v;
               after := after (executeWithFallback w1 (Some k) true c);
               invocations := 0 |}.
Proof.
  intros w1 k v c Hk Hv Hret.
  destruct (returned_value_is_stored w1 k c v Hk Hv Hret) as (ent & Hent & Hdata).
  exists ent. split; [done|]. split; [done|].
  intros w2 Hage. rewrite <- Hdata.
  apply fresh_entry_served; [done|done|congruence|done].
Qed.

(** The theorem at the first call of a fresh instance, key "user_1". *)
Lemma fresh_value_served_witness :
  "user_1"%string ≠ EmptyString
  ∧ truthy (Str "rows") = true
  ∧ settled (executeWithFallback
               (mkRun 0 (OperationSettles (Fulfilled (Str "rows"))) 5)
               (Some "user_1") true new) = Fulfilled (Str "rows")
  ∧ ∃ ent,
      cache (after (executeWithFallback
                      (mkRun 0 (OperationSettles (Fulfilled (Str "rows"))) 5)
                      (Some "user_1") true new)) !! "user_1" = Some ent
      ∧ data ent = Str "rows"
      ∧ ∀ w2, age (startedAt w2) ent ≤ CACHE_TTL →
          executeWithFallback w2 (Some "user_1") true
            (after (executeWithFallback
                      (mkRun 0 (OperationSettles (Fulfilled (Str "rows"))) 5)
                      (Some "user_1") true new))
          = {| settled := Fulfilled (Str "rows");
               after := after (executeWithFallback
                                 (mkRun 0 (OperationSettles (Fulfilled (Str "rows"))) 5)
                                 (Some "user_1") true new);
               invocations := 0 |}.
Proof.
  split; [discriminate|]. split; [reflexivity|]. split; [reflexivity|].
  apply (fresh_value_served_without_operation
           (mkRun 0 (OperationSettles (Fulfilled (Str "rows"))) 5)
           "user_1" (Str "rows") new);
    [discriminate | reflexivity | reflexivity].
Defined.

(** C2, as stated for all keys, fails at the empty key: [useCache &&
    cacheKey] is falsy for it, so the truthy value 1 returned by the first
    call is not stored, and a second call at the same instant calls the
    operation again and returns what that one produces. *)
Lemma empty_key_is_not_cached :
  truthy (Number 1) = true
  ∧ settled (executeWithFallback
               (mkRun 0 (OperationSettles (Fulfilled (Number 1))) 0)
               (Some "") true new) = Fulfilled (Number 1)
  ∧ cache (after (executeWithFallback
                    (mkRun 0 (OperationSettles (Fulfilled (Number 1))) 0)
                    (Some "") true new)) !! ""%string = None
  ∧ invocations
      (executeWithFallback
         (mkRun 0 (OperationSettles (Fulfilled (Number 2))) 0) (Some "") true
         (after (executeWithFallback
                   (mkRun 0 (OperationSettles (Fulfilled (Number 1))) 0)
                   (Some "") true new))) = 1%nat
  ∧ settled
      (executeWithFallback
         (mkRun 0 (OperationSettles (Fulfilled (Number 2))) 0) (Some "") true
         (after (executeWithFallback
                   (mkRun 0 (OperationSettles (Fulfilled (Number 1))) 0)
                   (Some "") true new))) ≠ Fulfilled (Number 1).
Proof. repeat split; try (vm_compute; reflexivity). vm_compute. discriminate. Qed.

(** *** Failure and the stored entry (C3) *)

(** C3, at the input where the code parts from it: an operation that
    rejects with [undefined], with caching on and the key "user_1".  The
    [catch] throws the engine's [TypeError] on reading [error.message]
    (line 67) before it looks at the cache: with a stale entry stored under
    the key the call does not return the entry's value, and with nothing
    stored it does not reject with what the operation rejected with.  Either
    way it rejects with the [TypeError] (the text used here is the one of
    JavaScriptCore, on which bun runs; the model takes any). *)
Lemma nullish_rejection_gets_neither_fallback_nor_rethrow :
  cache (after (executeWithFallback
                  (mkRun 0 (OperationSettles (Fulfilled (Str "rows"))) 5)
                  (Some "user_1") true new)) !! "user_1"%string
  = Some {| data := Str "rows"; timestamp := 5 |}
  ∧ settled
      (executeWithFallbackAny
         (mkAnyRun 400000
            (OperationRejectsNullish
               {| message := "undefined is not an object (evaluating 'error.message')" |})
            400001)
         (Some "user_1") true
         (after (executeWithFallback
                   (mkRun 0 (OperationSettles (Fulfilled (Str "rows"))) 5)
                   (Some "user_1") true new)))
    = Rejected {| message := "undefined is not an object (evaluating 'error.message')" |}
  ∧ invocations
      (executeWithFallbackAny
         (mkAnyRun 400000
            (OperationRejectsNullish
               {| message := "undefined is not an object (evaluating 'error.message')" |})
            400001)
         (Some "user_1") true
         (after (executeWithFallback
                   (mkRun 0 (OperationSettles (Fulfilled (Str "rows"))) 5)
                   (Some "user_1") true new))) = 1%nat
  ∧ executeWithFallbackAny
      (mkAnyRun 400000
         (OperationRejectsNullish
            {| message := "undefined is not an object (evaluating 'error.message')" |})
         400001)
      (Some "user_1") true new
    = {| settled :=
           Rejected {| message := "undefined is not an object (evaluating 'error.message')" |};
         after := new;
         invocations := 1 |}.
Proof. repeat split; vm_compute; reflexivity. Qed.

(** *** Falsy results (C4) *)

(** A miss stays a miss as the clock advances: an absent entry stays
    absent, an expired one stays expired, a falsy one stays falsy. *)
Lemma cacheHit_miss_later t1 t2 usable c :
  t1 ≤ t2 → cacheHit t1 usable c = None → cacheHit t2 usable c = None.
Proof.
  intros Hle. unfold cacheHit, getFromCache.
  destruct usable as [k|]; [|done].
  destruct (cache c !! k) as [ent|]; [|done].
  unfold isExpired. rewrite !andb_true_r.
  destruct (CACHE_TTL <? t1 - timestamp ent) eqn:X1.
  - apply Z.ltb_lt in X1.
    assert ((CACHE_TTL <? t2 - timestamp ent) = true) as -> by (apply Z.ltb_lt; lia).
    done.
  - destruct (truthy (data ent)) eqn:T; [done|]. intros _.
    destruct (CACHE_TTL <? t2 - timestamp ent); [done|]. by rewrite T.
Qed.

(** C4: take a call with caching on and a key given whose operation is
    called and fulfils with a falsy value [v].  The call returns [v] and
    writes nothing: the instance, cache included, is as before.  A
    subsequent call with the same key (the clock not having gone back)
    calls the operation again. *)
Theorem falsy_result_is_never_cached :
  ∀ (w1 : Run) (k : string) (v : Value) (c : RobustSupabaseClient),
    truthy v = false →
    raced w1 = OperationSettles (Fulfilled v) →
    invocations (executeWithFallback w1 (Some k) true c) = 1%nat →
    settled (executeWithFallback w1 (Some k) true c) = Fulfilled v
    ∧ after (executeWithFallback w1 (Some k) true c) = c
    ∧ ∀ w2, startedAt w1 ≤ startedAt w2 →
        invocations
          (executeWithFallback w2 (Some k) true
             (after (executeWithFallback w1 (Some k) true c))) = 1%nat.
Proof.
  intros w1 k v c Hv Hrace Hinv.
  apply invoked_iff_missed in Hinv.
  rewrite (missed_call _ _ _ _ Hinv).
  cbn [settled after]. unfold resume. rewrite Hrace. cbn [race].
  assert (onResult (settledAt w1) (cacheUsable true (Some k)) v c = (Fulfilled v, c)) as ->.
  { unfold onResult. destruct (cacheUsable true (Some k)); [|done]. by rewrite Hv. }
  cbn [fst snd]. split; [done|]. split; [done|].
  intros w2 Hle. apply invoked_iff_missed.
  by apply (cacheHit_miss_later (startedAt w1)).
Qed.

(** The theorem at an operation that fulfils with 0 on a fresh instance. *)
Lemma falsy_result_witness :
  truthy (Number 0) = false
  ∧ invocations (executeWithFallback
                   (mkRun 0 (OperationSettles (Fulfilled (Number 0))) 3)
                   (Some "user_1") true new) = 1%nat
  ∧ after (executeWithFallback
             (mkRun 0 (OperationSettles (Fulfilled (Number 0))) 3)
             (Some "user_1") true new) = new
  ∧ invocations
      (executeWithFallback
         (mkRun 10 (OperationSettles (Fulfilled (Number 0))) 12) (Some "user_1") true
         (after (executeWithFallback
                   (mkRun 0 (OperationSettles (Fulfilled (Number 0))) 3)
                   (Some "user_1") true new))) = 1%nat.
Proof.
  split; [reflexivity|]. split; [reflexivity|].
  destruct (falsy_result_is_never_cached
              (mkRun 0 (OperationSettles (Fulfilled (Number 0))) 3)
              "user_1" (Number 0) new eq_refl eq_refl eq_refl)
    as (_ & Hsame & Hagain).
  split; [exact Hsame|].
  apply (Hagain (mkRun 10 (OperationSettles (Fulfilled (Number 0))) 12)).
  simpl. lia.
Defined.

(** The falsy results: 0, the empty string, [null], [undefined], [false]
    and [NaN].  An array, even an empty one, is an object and is truthy, so
    it is a result that does get cached. *)
Example falsy_values :
  truthy (Number 0) = false ∧ truthy (Str "") = false ∧ truthy Null = false
  ∧ truthy Undefined = false ∧ truthy (Bool false) = false ∧ truthy NaNValue = false
  ∧ truthy (Object 1) = true.
Proof. done. Qed.

(** *** A scenario end to end *)

(** The operation succeeds on a first call at time 0; a second call within
    the TTL is served from the cache without calling the operation; a third
    call after the TTL calls the operation, which rejects, and gets the
    value of the first call back. *)
Example succeed_hit_then_stale_fallback :
  let c1 := executeWithFallback
              (mkRun 0 (OperationSettles (Fulfilled (Str "rows"))) 20)
              (Some "users_list_{}") true new in
  let c2 := executeWithFallback
              (mkRun 1000 (OperationSettles (Fulfilled (Str "other"))) 1020)
              (Some "users_list_{}") true (after c1) in
  let c3 := executeWithFallback
              (mkRun 301000 (OperationSettles (Rejected {| message := "fetch failed" |})) 301020)
              (Some "users_list_{}") true (after c2) in
  (settled c1, invocations c1) = (Fulfilled (Str "rows"), 1%nat)
  ∧ (settled c2, invocations c2) = (Fulfilled (Str "rows"), 0%nat)
  ∧ (settled c3, invocations c3) = (Fulfilled (Str "rows"), 1%nat)
  ∧ cache (after c3) !! "users_list_{}"%string
    = Some {| data := Str "rows"; timestamp := 20 |}.
Proof. vm_compute. done. Qed.

(** The sweep at time 301000 drops the entry stored at time 20 and keeps
    the one stored at time 5000. *)
Example sweep_drops_only_the_old_entry :
  cache (clearExpiredCache 301000
           (saveToCache 5000 "user_2" (Str "b")
              (saveToCache 20 "user_1" (Str "a") new)))
  = {[ "user_2"%string := {| data := Str "b"; timestamp := 5000 |} ]}.
Proof.
  apply map_eq. intros k. rewrite clearExpiredCache_lookup.
  unfold saveToCache, new; simpl.
  destruct (decide (k = "user_2"%string)) as [->|N2]; [by vm_compute|].
  rewrite lookup_insert_ne, lookup_singleton_ne by done.
  destruct (decide (k = "user_1"%string)) as [->|N1]; [by vm_compute|].
  by rewrite lookup_insert_ne, lookup_empty by done.
Qed.

End ExecutorProps.

(** ** Properties of the prober *)

Module ProberProps.
Import Js Prober.

Lemma testConnection_probeError p m :
  testConnection p m =
  match probeError p with
  | Some e => (Rejected e, m)
  | None => (Fulfilled tt, recordAttempt true (elapsed p) None m)
  end.
Proof.
  unfold testConnection, probeError.
  destruct (reply p) as [[e|]|thrown]; [|done|done].
  by destruct (isEmptyResult e).
Qed.

(** [push] then [shift]: the new record ends the history, and what is in
    front of it is the old history or the old history without its head. *)
Lemma recordAttempt_history ok lat err m :
  connectionHistory (recordAttempt ok lat err m)
  = (if (10 <? length (connectionHistory m) + 1)%nat
     then tail (connectionHistory m) else connectionHistory m)
    ++ [ {| success := ok; latency := lat; error := err |} ].
Proof.
  unfold recordAttempt; simpl. rewrite length_app; simpl.
  destruct (10 <? length (connectionHistory m) + 1)%nat eqn:X; [|done].
  destruct (connectionHistory m) as [|a h]; [|done].
  simpl in X. discriminate.
Qed.

Lemma recordAttempt_last ok lat err m :
  last (connectionHistory (recordAttempt ok lat err m))
  = Some {| success := ok; latency := lat; error := err |}.
Proof. rewrite recordAttempt_history. apply last_snoc. Qed.

Lemma recordAttempt_config ok lat err m :
  lastSuccessfulConfig (recordAttempt ok lat err m) = lastSuccessfulConfig m.
Proof. done. Qed.

(** C9: for every response of the probe that carries an error [e], in any
    state of the manager: when [e] denotes an empty result (its message
    contains "No users", the pattern of this call site) the probe does not
    throw and pushes a successful attempt with the measured latency; for
    any other [e] the probe throws [e] itself and records nothing. *)
Theorem empty_result_counts_as_success :
  ∀ (e : Error) (lat : Z) (m : SupabaseConnectionManager),
    testConnection {| reply := Fulfilled (Some e); elapsed := lat |} m
    = (if isEmptyResult e
       then (Fulfilled tt, recordAttempt true lat None m)
       else (Rejected e, m))
    ∧ last (connectionHistory (recordAttempt true lat None m))
      = Some {| success := true; latency := lat; error := None |}.
Proof.
  intros e lat m. split.
  - unfold testConnection; simpl. by destruct (isEmptyResult e).
  - apply recordAttempt_last.
Qed.

(** C6: when a configuration is remembered and the probe of the client
    built from it succeeds, the call returns that client, that client is
    the only one probed (no candidate is tried), and the remembered
    configuration stays. *)
Theorem remembered_success_tries_nothing_else :
  ∀ (net : nat → Probe) (u k : string) (cfg : ClientOptions)
    (m : SupabaseConnectionManager),
    lastSuccessfulConfig m = Some cfg →
    fst (testConnection (net 0%nat) m) = Fulfilled tt →
    settled (getWorkingClient net u k m) = Fulfilled (createClient u k cfg)
    ∧ probed (getWorkingClient net u k m) = [createClient u k cfg]
    ∧ lastSuccessfulConfig (after (getWorkingClient net u k m)) = Some cfg.
Proof.
  intros net u k cfg m Hcfg Hok. unfold getWorkingClient. rewrite Hcfg.
  rewrite testConnection_probeError in *.
  destruct (probeError (net 0%nat)); [done|]. simpl. done.
Qed.

(** The theorem at a manager that remembers the third configuration and a
    service that answers every probe without error. *)
Lemma remembered_success_witness :
  fst (testConnection {| reply := Fulfilled None; elapsed := 42 |}
         {| connectionHistory := [];
            lastSuccessfulConfig := Some {| connectionHeader := None; fetchTimeout := Some 20000 |} |})
  = Fulfilled tt
  ∧ probed (getWorkingClient (λ _, {| reply := Fulfilled None; elapsed := 42 |})
              "https://db.example" "service-key"
              {| connectionHistory := [];
                 lastSuccessfulConfig := Some {| connectionHeader := None; fetchTimeout := Some 20000 |} |})
    = [createClient "https://db.example" "service-key"
         {| connectionHeader := None; fetchTimeout := Some 20000 |}].
Proof.
  split; [reflexivity|].
  apply (remembered_success_tries_nothing_else
           (λ _, {| reply := Fulfilled None; elapsed := 42 |})
           "https://db.example" "service-key"
           {| connectionHeader := None; fetchTimeout := Some 20000 |}
           {| connectionHistory := [];
              lastSuccessfulConfig := Some {| connectionHeader := None; fetchTimeout := Some 20000 |} |}
           eq_refl eq_refl).
Defined.

(** *** The candidate loop *)

(** When every candidate's probe throws, the loop pushes one failed record
    per candidate, probes one client per candidate and ends in the final
    [throw]. *)
Lemma tryConfigurations_all_fail net u k candidates :
  ∀ (log : list SupabaseClient) (m : SupabaseConnectionManager) (errs : nat → Error),
    (∀ i, (i < length candidates)%nat →
          probeError (net (length log + i)%nat) = Some (errs i)) →
    tryConfigurations net u k candidates log m
    = {| settled := Rejected allFailedError;
         after := recordFailures (errs <$> seq 0 (length candidates)) m;
         probed := log ++ ((λ cand, createClient u k (config cand)) <$> candidates) |}.
Proof.
  induction candidates as [|cand rest IH]; intros log m errs Hfail.
  - simpl. by rewrite app_nil_r.
  - cbn [tryConfigurations]. rewrite testConnection_probeError.
    specialize (Hfail 0%nat) as H0. rewrite Nat.add_0_r in H0.
    rewrite H0 by (simpl; lia).
    rewrite (IH _ _ (λ i, errs (S i))).
    + f_equal.
      * cbn [length seq fmap list_fmap]. rewrite <- fmap_S_seq, <- list_fmap_compose.
        done.
      * rewrite <- app_assoc. done.
    + intros i Hi. rewrite length_app; simpl.
      replace (length log + 1 + i)%nat with (length log + S i)%nat by lia.
      apply Hfail. simpl. lia.
Qed.

(** Up to ten failures in a row all stay at the end of the history; in
    front of them is a suffix of what was there before. *)
Lemma recordFailures_history es :
  ∀ m, (length es ≤ 10)%nat →
       ∃ kept, kept `suffix_of` connectionHistory m
               ∧ connectionHistory (recordFailures es m) = kept ++ (failedAttempt <$> es).
Proof.
  induction es as [|e es IH] using rev_ind; intros m Hlen.
  - exists (connectionHistory m). split; [done|]. simpl. by rewrite app_nil_r.
  - rewrite length_app in Hlen; simpl in Hlen.
    destruct (IH m ltac:(lia)) as (kept & Hsuf & Hhist).
    unfold recordFailures in *. rewrite foldl_app. cbn [foldl].
    rewrite recordAttempt_history, Hhist, fmap_app. cbn [fmap list_fmap].
    fold (failedAttempt e).
    destruct (10 <? length (kept ++ (failedAttempt <$> es)) + 1)%nat eqn:X.
    + apply Nat.ltb_lt in X. rewrite length_app, length_fmap in X.
      destruct kept as [|a kept']; [simpl in X; lia|].
      exists kept'. split.
      * etrans; [|exact Hsuf]. by apply suffix_cons_r.
      * simpl. by rewrite <- app_assoc.
    + exists kept. split; [done|]. by rewrite <- app_assoc.
Qed.

Lemma recordFailures_config es m :
  lastSuccessfulConfig (recordFailures es m) = lastSuccessfulConfig m.
Proof.
  revert m. induction es as [|e es IH]; intros m; [done|].
  unfold recordFailures in *. simpl. by rewrite IH.
Qed.

(** The remembered configuration is tried before the loop; when its probe
    throws, the loop starts from the manager as it was. *)
Lemma getWorkingClient_loop net u k m :
  (∀ cfg, lastSuccessfulConfig m = Some cfg → probeError (net 0%nat) ≠ None) →
  ∃ log, length log = probesBeforeLoop m
         ∧ getWorkingClient net u k m = tryConfigurations net u k configurations log m.
Proof.
  intros Hrem. unfold getWorkingClient, probesBeforeLoop.
  destruct (lastSuccessfulConfig m) as [cfg|] eqn:Hcfg.
  - rewrite testConnection_probeError.
    specialize (Hrem cfg eq_refl).
    destruct (probeError (net 0%nat)); [|done].
    by exists [createClient u k cfg].
  - by exists [].
Qed.

(** C7: take a call in which the probe fails for each of the candidates
    (and for the remembered configuration, when there is one, so that the
    candidates are reached), [errs i] being the error of the [i]-th
    candidate's probe.  The call rejects with the final "all configurations
    failed" error, no client is returned, and the history ends with one
    failed record per candidate, in order, in front of which is what the ten
    record cap kept of the earlier history.  There are four candidates. *)
Theorem all_candidates_fail_is_terminal :
  ∀ (net : nat → Probe) (u k : string) (errs : nat → Error)
    (m : SupabaseConnectionManager),
    (∀ cfg, lastSuccessfulConfig m = Some cfg → probeError (net 0%nat) ≠ None) →
    (∀ i, (i < length configurations)%nat →
          probeError (net (probesBeforeLoop m + i)%nat) = Some (errs i)) →
    settled (getWorkingClient net u k m) = Rejected allFailedError
    ∧ length configurations = 4%nat
    ∧ ∃ kept,
        kept `suffix_of` connectionHistory m
        ∧ connectionHistory (after (getWorkingClient net u k m))
          = kept ++ [ failedAttempt (errs 0%nat); failedAttempt (errs 1%nat);
                      failedAttempt (errs 2%nat); failedAttempt (errs 3%nat) ].
Proof.
  intros net u k errs m Hrem Hfail.
  destruct (getWorkingClient_loop net u k m Hrem) as (log & Hlog & ->).
  rewrite (tryConfigurations_all_fail net u k configurations log m errs)
    by (intros i Hi; rewrite Hlog; by apply Hfail).
  cbn [settled after]. split; [done|]. split; [done|].
  destruct (recordFailures_history (errs <$> seq 0 (length configurations)) m)
    as (kept & Hsuf & Hhist); [simpl; lia|].
  exists kept. split; [done|]. exact Hhist.
Qed.

(** The theorem at a fresh manager and a service whose every call throws. *)
Lemma all_candidates_fail_witness :
  (∀ i, (i < length configurations)%nat →
        probeError ((λ _, {| reply := Rejected {| message := "fetch failed" |}; elapsed := 0 |})
                      (probesBeforeLoop new + i)%nat)
        = Some ((λ _, {| message := "fetch failed" |}) i))
  ∧ settled (getWorkingClient
               (λ _, {| reply := Rejected {| message := "fetch failed" |}; elapsed := 0 |})
               "https://db.example" "service-key" new)
    = Rejected allFailedError.
Proof.
  split; [intros i _; reflexivity|].
  apply (all_candidates_fail_is_terminal
           (λ _, {| reply := Rejected {| message := "fetch failed" |}; elapsed := 0 |})
           "https://db.example" "service-key"
           (λ _, {| message := "fetch failed" |}) new).
  - intros cfg Hcfg. discriminate Hcfg.
  - intros i _. reflexivity.
Defined.

(** What the loop does in general: the candidates are probed in order; each
    probe that throws pushes one failed record; the first probe that does
    not throw pushes its successful record, its configuration is remembered
    and its client returned; when none is left the loop throws. *)
Lemma tryConfigurations_trace net u k candidates :
  ∀ (log : list SupabaseClient) (m : SupabaseConnectionManager),
    ∃ es : list Error,
      (length es ≤ length candidates)%nat
      ∧ (∀ i e, es !! i = Some e → probeError (net (length log + i)%nat) = Some e)
      ∧ ((length es = length candidates
          ∧ settled (tryConfigurations net u k candidates log m) = Rejected allFailedError
          ∧ after (tryConfigurations net u k candidates log m) = recordFailures es m)
         ∨ (∃ cand,
              candidates !! length es = Some cand
              ∧ probeError (net (length log + length es)%nat) = None
              ∧ settled (tryConfigurations net u k candidates log m)
                = Fulfilled (createClient u k (config cand))
              ∧ after (tryConfigurations net u k candidates log m)
                = remember (config cand)
                    (recordAttempt true (elapsed (net (length log + length es)%nat)) None
                       (recordFailures es m)))).
Proof.
  induction candidates as [|cand rest IH]; intros log m.
  - exists []. split; [done|]. split; [done|]. left. done.
  - cbn [tryConfigurations]. rewrite testConnection_probeError.
    destruct (probeError (net (length log))) as [e|] eqn:P.
    + destruct (IH (log ++ [createClient u k (config cand)])
                  (recordAttempt false 0 (Some (message e)) m))
        as (es & Hlen & Herr & Hend).
      rewrite length_app in Herr, Hend. cbn [length] in Herr, Hend.
      exists (e :: es). split; [simpl; lia|]. split.
      * intros [|i] e'; simpl.
        -- intros [= <-]. by rewrite Nat.add_0_r.
        -- intros Hi. replace (length log + S i)%nat with (length log + 1 + i)%nat by lia.
           by apply Herr.
      * cbn [length].
        replace (length log + S (length es))%nat with (length log + 1 + length es)%nat by lia.
        destruct Hend as [(Hall & Hs & Ha)|(cand' & Hc & Hp & Hs & Ha)].
        -- left. split; [lia|]. done.
        -- right. exists cand'. done.
    + exists []. split; [simpl; lia|]. split; [done|].
      right. exists cand. cbn [length]. rewrite Nat.add_0_r, P. done.
Qed.

(** C10: when a configuration is remembered and its probe throws, that
    attempt leaves the manager, history included, as it was, and the call
    goes on as the candidate loop from that unchanged manager.  The failed
    records the call pushes are one per candidate whose probe threw (probes
    1, 2, ... of the call), followed at most by the successful record of the
    candidate that answered: none stands for the remembered attempt. *)
Theorem remembered_failure_is_not_recorded :
  ∀ (net : nat → Probe) (u k : string) (cfg : ClientOptions) (e0 : Error)
    (m : SupabaseConnectionManager),
    lastSuccessfulConfig m = Some cfg →
    probeError (net 0%nat) = Some e0 →
    testConnection (net 0%nat) m = (Rejected e0, m)
    ∧ getWorkingClient net u k m
      = tryConfigurations net u k configurations [createClient u k cfg] m
    ∧ ∃ es : list Error,
        (length es ≤ length configurations)%nat
        ∧ (∀ i e, es !! i = Some e → probeError (net (1 + i)%nat) = Some e)
        ∧ (connectionHistory (after (getWorkingClient net u k m))
           = connectionHistory (recordFailures es m)
           ∨ connectionHistory (after (getWorkingClient net u k m))
             = connectionHistory
                 (recordAttempt true (elapsed (net (1 + length es)%nat)) None
                    (recordFailures es m))).
Proof.
  intros net u k cfg e0 m Hcfg Hprobe.
  assert (getWorkingClient net u k m
          = tryConfigurations net u k configurations [createClient u k cfg] m) as Hloop.
  { unfold getWorkingClient. by rewrite Hcfg, testConnection_probeError, Hprobe. }
  split; [by rewrite testConnection_probeError, Hprobe|]. split; [exact Hloop|].
  rewrite Hloop.
  destruct (tryConfigurations_trace net u k configurations [createClient u k cfg] m)
    as (es & Hlen & Herr & Hend).
  exists es. split; [done|]. split; [exact Herr|].
  destruct Hend as [(_ & _ & ->)|(cand & _ & _ & _ & ->)]; [by left|by right].
Qed.

(** The theorem at a manager with one record in its history, a remembered
    configuration and a service whose every call throws. *)
Lemma remembered_failure_witness :
  probeError {| reply := Rejected {| message := "fetch failed" |}; elapsed := 0 |}
  = Some {| message := "fetch failed" |}
  ∧ testConnection {| reply := Rejected {| message := "fetch failed" |}; elapsed := 0 |}
      {| connectionHistory := [ {| success := true; latency := 30; error := None |} ];
         lastSuccessfulConfig := Some {| connectionHeader := None; fetchTimeout := None |} |}
    = (Rejected {| message := "fetch failed" |},
       {| connectionHistory := [ {| success := true; latency := 30; error := None |} ];
          lastSuccessfulConfig := Some {| connectionHeader := None; fetchTimeout := None |} |}).
Proof.
  split; [reflexivity|].
  apply (remembered_failure_is_not_recorded
           (λ _, {| reply := Rejected {| message := "fetch failed" |}; elapsed := 0 |})
           "https://db.example" "service-key"
           {| connectionHeader := None; fetchTimeout := None |}
           {| message := "fetch failed" |}
           {| connectionHistory := [ {| success := true; latency := 30; error := None |} ];
              lastSuccessfulConfig := Some {| connectionHeader := None; fetchTimeout := None |} |}
           eq_refl eq_refl).
Defined.


(** The first candidate's probe throws, the second answers with the empty
    result "No users found": the second client is returned, its
    configuration remembered, and the history holds the failure and then
    the success. *)
Example second_candidate_answers :
  let net := λ n : nat,
      match n with
      | O => {| reply := Rejected {| message := "fetch failed" |}; elapsed := 5000 |}
      | _ => {| reply := Fulfilled (Some {| message := "No users found" |}); elapsed := 120 |}
      end in
  let out := getWorkingClient net "https://db.example" "service-key" new in
  settled out
  = Fulfilled (createClient "https://db.example" "service-key"
                 {| connectionHeader := Some "keep-alive"; fetchTimeout := Some 10000 |})
  ∧ length (probed out) = 2%nat
  ∧ lastSuccessfulConfig (after out)
    = Some {| connectionHeader := Some "keep-alive"; fetchTimeout := Some 10000 |}
  ∧ connectionHistory (after out)
    = [ {| success := false; latency := 0; error := Some "fetch failed" |};
        {| success := true; latency := 120; error := None |} ].
Proof. vm_compute. done. Qed.

(** *** Statistics (C8) *)

(** [Math.round(a / p)] on integers, [p] positive, is a floor division. *)
Lemma round_half (a : Z) (p : positive) :
  Qfloor (inject_Z a / inject_Z (Z.pos p) + (1 # 2)) = (2 * a + Z.pos p) / (2 * Z.pos p).
Proof.
  assert (inject_Z a / inject_Z (Z.pos p) + (1 # 2) == (2 * a + Z.pos p) # (2 * p))%Q as ->.
  { unfold Qeq, Qdiv, Qmult, Qplus, Qinv, inject_Z; simpl. lia. }
  reflexivity.
Qed.

Lemma nearest_bounds (a : Z) (p : positive) :
  2 * Z.pos p * ((2 * a + Z.pos p) / (2 * Z.pos p)) ≤ 2 * a + Z.pos p
  < 2 * Z.pos p * ((2 * a + Z.pos p) / (2 * Z.pos p) + 1).
Proof.
  pose proof (Z.mul_div_le (2 * a + Z.pos p) (2 * Z.pos p) ltac:(lia)).
  pose proof (Z.mul_succ_div_gt (2 * a + Z.pos p) (2 * Z.pos p) ltac:(lia)).
  lia.
Qed.

(** With a positive count of successes the division is finite, [|| 0]
    changes nothing but the representation of zero, and the rounded quotient
    is the integer nearest to it. *)
Lemma rounded_average (sum : Z) (p : positive) :
  ∃ avg : Z,
    round (orZero (divide sum (Z.pos p))) = Finite (inject_Z avg)
    ∧ 2 * Z.pos p * avg ≤ 2 * sum + Z.pos p < 2 * Z.pos p * (avg + 1).
Proof.
  unfold divide. cbn [Z.eqb]. unfold orZero.
  destruct (Qeq_bool (inject_Z sum / inject_Z (Z.pos p)) 0) eqn:X.
  - exists 0. split; [done|].
    apply Qeq_bool_eq in X. unfold Qeq, Qdiv, Qmult, Qinv, inject_Z in X. simpl in X. lia.
  - eexists. split; [reflexivity|]. rewrite round_half. apply nearest_bounds.
Qed.

(** C8, as amended: in every state [getConnectionStats] returns finite
    numbers (a division by zero yields [NaN], which [|| 0] turns into 0; no
    fault).  With an empty history [successRate] is 0 and [averageLatency]
    is 0; with no successful attempt [averageLatency] is 0; otherwise
    [successRate] is the share of successful attempts times 100, and
    [averageLatency] is the mean latency of the successful attempts only,
    rounded to the nearest integer ([Math.round], halves upwards). *)
Theorem stats_never_fault_and_average_is_rounded :
  ∀ m : SupabaseConnectionManager,
    ∃ (rate : Q) (avg : Z),
      successRate (getConnectionStats m) = Finite rate
      ∧ averageLatency (getConnectionStats m) = Finite (inject_Z avg)
      ∧ (connectionHistory m = [] → (rate == 0)%Q ∧ avg = 0)
      ∧ (successes (connectionHistory m) = [] → avg = 0)
      ∧ (connectionHistory m ≠ [] →
         (rate == inject_Z (Z.of_nat (length (successes (connectionHistory m))))
                  / inject_Z (Z.of_nat (length (connectionHistory m))) * 100)%Q)
      ∧ (successes (connectionHistory m) ≠ [] →
         2 * Z.of_nat (length (successes (connectionHistory m))) * avg
         ≤ 2 * sumLatency (successes (connectionHistory m))
           + Z.of_nat (length (successes (connectionHistory m)))
         < 2 * Z.of_nat (length (successes (connectionHistory m))) * (avg + 1)).
Proof.
  intros [h cfg]. unfold getConnectionStats. cbn [connectionHistory successRate averageLatency].
  assert (∃ rate, (if (0 <? length h)%nat
                   then times100 (divide (Z.of_nat (length (successes h))) (Z.of_nat (length h)))
                   else Finite 0) = Finite rate
                  ∧ (h = [] → (rate == 0)%Q)
                  ∧ (h ≠ [] → (rate == inject_Z (Z.of_nat (length (successes h)))
                                      / inject_Z (Z.of_nat (length h)) * 100)%Q))
    as (rate & -> & Hr0 & Hr).
  { destruct h as [|a h].
    - exists 0%Q. done.
    - exists (inject_Z (Z.of_nat (length (successes (a :: h))))
              / inject_Z (Z.of_nat (length (a :: h))) * 100)%Q.
      split; [|split; [done|reflexivity]].
      cbn [length Nat.ltb Nat.leb]. unfold divide.
      replace (Z.of_nat (S (length h)) =? 0) with false by (symmetry; apply Z.eqb_neq; lia).
      reflexivity. }
  destruct (successes h) as [|s ss] eqn:S.
  - exists rate, 0. split; [done|]. split; [done|].
    split; [intros ->; split; [by apply Hr0|done]|]. split; [done|]. split; [done|]. done.
  - destruct (rounded_average (sumLatency (s :: ss)) (Pos.of_succ_nat (length ss)))
      as (avg & Havg & Hb).
    rewrite Zpos_P_of_succ_nat, <- Nat2Z.inj_succ in Havg, Hb.
    exists rate, avg. cbn [length]. split; [done|]. split; [exact Havg|].
    split.
    { intros ->. discriminate S. }
    split; [done|]. split; [exact Hr|]. intros _. exact Hb.
Qed.

(** C8, as stated, fails on the average: with two successful attempts of
    1 ms and 2 ms the mean latency is 3/2, and [averageLatency] is 2. *)
Lemma average_latency_is_rounded :
  averageLatency
    (getConnectionStats
       {| connectionHistory := [ {| success := true; latency := 1; error := None |};
                                 {| success := true; latency := 2; error := None |} ];
          lastSuccessfulConfig := None |})
  = Finite (inject_Z 2)
  ∧ ¬ (inject_Z 2 == (inject_Z 1 + inject_Z 2) / inject_Z 2)%Q.
Proof. split; [vm_compute; reflexivity|]. vm_compute. discriminate. Qed.

End ProberProps.

(** ** More on the executor *)

Module ExecutorMore.
Import Js Executor ExecutorProps.

Lemma unusable_key_passes_through w key useCache c :
  cacheUsable useCache key = None →
  executeWithFallback w key useCache c
  = {| settled := race (raced w); after := c; invocations := 1 |}.
Proof.
  intros U. unfold executeWithFallback, resume, onResult, onError.
  rewrite U. simpl. by destruct (race (raced w)).
Qed.

Lemma unusable_key_passes_through_any w key useCache c :
  cacheUsable useCache key = None →
  executeWithFallbackAny w key useCache c
  = {| settled := settlesAs (contest w); after := c; invocations := 1 |}.
Proof.
  intros U. unfold executeWithFallbackAny, resumeAny, resume, onResult, onError, settlesAs.
  rewrite U. simpl. destruct (contest w) as [r|typeError]; [|done].
  by destruct (race r).
Qed.

(** X1: With caching off, with no key, or with the empty key, a call of any
    operation is the race and its [catch], and nothing more.  The operation
    is called once and the cache is neither read nor written.  The call
    returns the value the operation fulfilled with, rejects with the object
    the operation rejected with or with the timeout error, and, when the
    operation rejected with [null] or [undefined], rejects with the
    [TypeError] the [catch] throws on reading [error.message]. *)
Theorem call_without_usable_key_is_the_race :
  ∀ (w : AnyRun) (c : RobustSupabaseClient),
    (∀ key, executeWithFallbackAny w key false c
            = {| settled := settlesAs (contest w); after := c; invocations := 1 |})
    ∧ (∀ useCache, executeWithFallbackAny w None useCache c
                   = {| settled := settlesAs (contest w); after := c; invocations := 1 |})
    ∧ (∀ useCache, executeWithFallbackAny w (Some "") useCache c
                   = {| settled := settlesAs (contest w); after := c; invocations := 1 |})
    ∧ match contest w with
      | RaceOfObjects (OperationSettles s) => settlesAs (contest w) = s
      | RaceOfObjects TimerFires => settlesAs (contest w) = Rejected timeoutError
      | OperationRejectsNullish typeError => settlesAs (contest w) = Rejected typeError
      end.
Proof.
  intros w c. split; [|split; [|split]].
  - intros key. apply unusable_key_passes_through_any. by destruct key.
  - intros uc. by apply unusable_key_passes_through_any.
  - intros uc. apply unusable_key_passes_through_any, cacheUsable_empty_key.
  - by destruct (contest w) as [[s|]|typeError].
Qed.

(** X2: Once an entry is older than the TTL a call with its key is not served
    from it: the operation is called again, a fulfilled value is what the
    call returns, and a truthy one replaces the entry, stamped with the
    clock reading at which the race settled. *)
Theorem expired_entry_calls_operation_again :
  ∀ (w : Run) (k : string) (ent : CacheEntry) (c : RobustSupabaseClient),
    cache c !! k = Some ent →
    age (startedAt w) ent > CACHE_TTL →
    invocations (executeWithFallback w (Some k) true c) = 1%nat
    ∧ ∀ v, raced w = OperationSettles (Fulfilled v) →
           settled (executeWithFallback w (Some k) true c) = Fulfilled v
           ∧ (truthy v = true → k ≠ EmptyString →
              cache (after (executeWithFallback w (Some k) true c)) !! k
              = Some {| data := v; timestamp := settledAt w |}).
Proof.
  intros w k ent c Hent Hage.
  assert (cacheHit (startedAt w) (cacheUsable true (Some k)) c = None) as Hmiss.
  { unfold cacheHit, getFromCache. destruct (cacheUsable true (Some k)) as [k'|] eqn:U; [|done].
    apply cacheUsable_Some in U as ([= <-] & _ & _). rewrite Hent.
    apply isExpired_age in Hage. by rewrite Hage. }
  rewrite (missed_call _ _ _ _ Hmiss). cbn [invocations settled after].
  split; [done|]. intros v Hv. unfold resume. rewrite Hv. cbn [race].
  unfold onResult. destruct (cacheUsable true (Some k)) as [k'|] eqn:U.
  - apply cacheUsable_Some in U as ([= <-] & _ & _).
    destruct (truthy v); cbn [fst snd]; split; try done.
    intros _ _. unfold saveToCache; simpl. apply lookup_insert_eq.
  - cbn [fst snd]. split; [done|]. intros _ Hk.
    by rewrite cacheUsable_given in U.
Qed.

(** The theorem at an entry stored at time 0 and a call at time 400000. *)
Lemma expired_entry_witness :
  age 400000 {| data := Str "old"; timestamp := 0 |} > CACHE_TTL
  ∧ invocations
      (executeWithFallback
         (mkRun 400000 (OperationSettles (Fulfilled (Str "new"))) 400020)
         (Some "user_1") true (saveToCache 0 "user_1" (Str "old") new)) = 1%nat.
Proof.
  split; [vm_compute; reflexivity|].
  apply (expired_entry_calls_operation_again
           (mkRun 400000 (OperationSettles (Fulfilled (Str "new"))) 400020)
           "user_1" {| data := Str "old"; timestamp := 0 |}
           (saveToCache 0 "user_1" (Str "old") new)).
  - vm_compute. reflexivity.
  - vm_compute. reflexivity.
Defined.

(** X3: A call writes at most the entry of its own key, and only when the
    operation was called and fulfilled with a truthy value; it never removes
    or changes any other entry. *)
Theorem call_writes_only_its_own_entry :
  ∀ (w : Run) (key : option string) (useCache : bool) (c : RobustSupabaseClient)
    (k' : string),
    cache (after (executeWithFallback w key useCache c)) !! k' = cache c !! k'
    ∨ (key = Some k' ∧ useCache = true ∧ k' ≠ EmptyString
       ∧ invocations (executeWithFallback w key useCache c) = 1%nat
       ∧ ∃ v, raced w = OperationSettles (Fulfilled v)
              ∧ truthy v = true
              ∧ cache (after (executeWithFallback w key useCache c)) !! k'
                = Some {| data := v; timestamp := settledAt w |}).
Proof.
  intros w key useCache c k'. unfold executeWithFallback.
  destruct (cacheHit _ _ c) as [hit|]; [by left|].
  unfold resume.
  destruct (raced w) as [[v|e]|] eqn:R; cbn [race].
  - unfold onResult. destruct (cacheUsable useCache key) as [k|] eqn:U; [|by left].
    destruct (truthy v) eqn:T; [|by left]. cbn [after invocations].
    apply cacheUsable_Some in U as (-> & -> & Hk).
    destruct (decide (k = k')) as [->|Hne].
    + right. repeat (split; [done|]). exists v. repeat (split; [done|]).
      unfold saveToCache; simpl. apply lookup_insert_eq.
    + left. unfold saveToCache; simpl. by rewrite lookup_insert_ne.
  - rewrite onError_afterFailure. by left.
  - rewrite onError_afterFailure. by left.
Qed.

(** X4: In every state an instance can reach, each stored entry sits under a
    non-empty key and holds a truthy value: what the fallback returns is
    never [null], [undefined], 0 or the empty string. *)
Theorem stored_entries_are_truthy :
  ∀ (c : RobustSupabaseClient) (k : string) (e : CacheEntry),
    reachable c →
    cache c !! k = Some e →
    k ≠ EmptyString ∧ truthy (data e) = true.
Proof. intros c k e Hc. by apply reachable_wellFormed. Qed.

(** The theorem at the entry left by a first call. *)
Lemma stored_entries_witness :
  cache (after (executeWithFallback
                  (mkRun 0 (OperationSettles (Fulfilled (Str "rows"))) 5)
                  (Some "user_1") true new)) !! "user_1"%string
  = Some {| data := Str "rows"; timestamp := 5 |}
  ∧ truthy (Str "rows") = true.
Proof.
  split; [vm_compute; reflexivity|].
  apply (stored_entries_are_truthy
           (after (executeWithFallback
                     (mkRun 0 (OperationSettles (Fulfilled (Str "rows"))) 5)
                     (Some "user_1") true new))
           "user_1" {| data := Str "rows"; timestamp := 5 |}).
  - apply reachable_call, reachable_new.
  - vm_compute. reflexivity.
Defined.

(** *** Sweeps and reads *)

Lemma isExpired_max t1 t2 e :
  isExpired (Z.max t1 t2) e = isExpired t1 e || isExpired t2 e.
Proof.
  unfold isExpired.
  destruct (CACHE_TTL <? t1 - timestamp e) eqn:X1;
    destruct (CACHE_TTL <? t2 - timestamp e) eqn:X2; simpl;
    rewrite ?Z.ltb_lt, ?Z.ltb_ge in *; lia.
Qed.

(** X5: Two sweeps in a row, in either order of their clock readings, leave
    what one sweep at the later reading leaves. *)
Theorem sweeps_compose_to_the_later_one :
  ∀ (t1 t2 : Z) (c : RobustSupabaseClient),
    clearExpiredCache t1 (clearExpiredCache t2 c) = clearExpiredCache (Z.max t1 t2) c.
Proof.
  intros t1 t2 c. apply client_eq, map_eq. intros k.
  rewrite !clearExpiredCache_lookup.
  destruct (cache c !! k) as [e|]; [|done].
  rewrite isExpired_max.
  destruct (isExpired t2 e); [by rewrite orb_true_r|].
  rewrite orb_false_r. done.
Qed.

(** X6: A sweep is invisible to reads that honour the TTL at the same clock
    reading, and it is what takes the stale fallback away: after a sweep at
    [now], a read that ignores the TTL finds exactly what a read honouring
    it found at [now]. *)
Theorem sweep_keeps_fresh_reads_and_drops_stale_fallback :
  ∀ (now later : Z) (k : string) (c : RobustSupabaseClient),
    getFromCache now k false (clearExpiredCache now c) = getFromCache now k false c
    ∧ getFromCache later k true (clearExpiredCache now c) = getFromCache now k false c.
Proof.
  intros now later k c. unfold getFromCache.
  rewrite clearExpiredCache_lookup.
  destruct (cache c !! k) as [e|]; [|done].
  destruct (isExpired now e) eqn:X; simpl; [done|].
  rewrite X. simpl. by rewrite andb_false_r.
Qed.

(** X7: Reading back what was saved: under the same key the value comes back
    while its age is within the TTL, [null] once it is older, and always
    when the TTL is ignored; reads of other keys are not affected, and a
    second save under the key replaces the first. *)
Theorem save_then_get :
  ∀ (saved now : Z) (k : string) (v : Value) (c : RobustSupabaseClient),
    (now - saved ≤ CACHE_TTL → getFromCache now k false (saveToCache saved k v c) = v)
    ∧ (now - saved > CACHE_TTL → getFromCache now k false (saveToCache saved k v c) = Null)
    ∧ getFromCache now k true (saveToCache saved k v c) = v
    ∧ (∀ k' ignoreTTL, k' ≠ k →
         getFromCache now k' ignoreTTL (saveToCache saved k v c)
         = getFromCache now k' ignoreTTL c)
    ∧ (∀ saved' v', saveToCache saved' k v' (saveToCache saved k v c)
                    = saveToCache saved' k v' c).
Proof.
  intros saved now k v c. unfold getFromCache, saveToCache; simpl.
  rewrite lookup_insert_eq. unfold isExpired; simpl.
  split; [|split; [|split; [|split]]].
  - intros H. apply Z.ltb_ge in H. by rewrite H.
  - intros H. assert ((CACHE_TTL <? now - saved) = true) as -> by (apply Z.ltb_lt; lia).
    done.
  - by rewrite andb_false_r.
  - intros k' ign Hne. by rewrite lookup_insert_ne.
  - intros saved' v'. apply client_eq; simpl. apply insert_insert_eq.
Qed.

(** *** The wrappers *)

Lemma other_keys_untouched w key useCache c k' :
  key ≠ Some k' →
  cache (after (executeWithFallback w key useCache c)) !! k' = cache c !! k'.
Proof.
  intros Hne. unfold executeWithFallback.
  destruct (cacheHit _ _ c); [done|]. unfold resume.
  destruct (race (raced w)) as [v|e].
  - unfold onResult. destruct (cacheUsable useCache key) as [k|] eqn:U; [|done].
    destruct (truthy v); [|done]. cbn [after].
    apply cacheUsable_Some in U as (-> & _ & _).
    unfold saveToCache; simpl. rewrite lookup_insert_ne; [done|congruence].
  - by rewrite onError_afterFailure.
Qed.

Lemma user_key_nonempty userId : "user_" +:+ userId ≠ EmptyString.
Proof. discriminate. Qed.

Lemma user_key_inj id1 id2 : "user_" +:+ id1 = "user_" +:+ id2 → id1 = id2.
Proof. simpl. intros H. by injection H. Qed.

(** X8: [getUserById] caches per user, whatever the id, the empty one
    included: once it has returned a truthy value for an id, later calls for
    that id made while the stored entry is within the TTL return the value
    without calling the API, and the entries of all other ids are as they
    were. *)
Theorem getUserById_caches_per_user :
  ∀ (w1 : Run) (userId : string) (v : Value) (c : RobustSupabaseClient),
    truthy v = true →
    settled (getUserById w1 userId c) = Fulfilled v →
    (∃ ent,
       cache (after (getUserById w1 userId c)) !! ("user_" +:+ userId) = Some ent
       ∧ data ent = v
       ∧ ∀ w2, age (startedAt w2) ent ≤ CACHE_TTL →
           getUserById w2 userId (after (getUserById w1 userId c))
           = {| settled := Fulfilled v;
                after := after (getUserById w1 userId c);
                invocations := 0 |})
    ∧ ∀ other, other ≠ userId →
        cache (after (getUserById w1 userId c)) !! ("user_" +:+ other)
        = cache c !! ("user_" +:+ other).
Proof.
  intros w1 userId v c Hv Hret. unfold getUserById in *. split.
  - destruct (returned_value_is_stored w1 _ c v (user_key_nonempty userId) Hv Hret)
      as (ent & Hent & Hdata).
    exists ent. split; [done|]. split; [done|].
    intros w2 Hage. rewrite <- Hdata.
    apply fresh_entry_served; [apply user_key_nonempty|done|congruence|done].
  - intros other Hne. apply other_keys_untouched.
    intros E. assert ("user_" +:+ userId = "user_" +:+ other) as E' by congruence.
    apply user_key_inj in E'. congruence.
Qed.

(** The theorem at the first lookup of the user with the empty id. *)
Lemma getUserById_witness :
  truthy (Object 7) = true
  ∧ settled (getUserById (mkRun 0 (OperationSettles (Fulfilled (Object 7))) 9) "" new)
    = Fulfilled (Object 7)
  ∧ ∀ other, other ≠ ""%string →
      cache (after (getUserById (mkRun 0 (OperationSettles (Fulfilled (Object 7))) 9) "" new))
        !! ("user_" +:+ other)
      = cache new !! ("user_" +:+ other).
Proof.
  split; [reflexivity|]. split; [reflexivity|].
  apply (getUserById_caches_per_user
           (mkRun 0 (OperationSettles (Fulfilled (Object 7))) 9) "" (Object 7) new
           eq_refl eq_refl).
Defined.

(** X9: The key spaces of [getUserById] and [listUsers] are disjoint ("user_"
    against "users_list_"): whatever the id and the options, a [listUsers]
    call leaves the entry of every user as it is, and a [getUserById] call
    leaves the entry of every list as it is. *)
Theorem user_and_list_entries_never_mix :
  ∀ (w : Run) (userId optionsJson : string) (c : RobustSupabaseClient),
    cache (after (listUsers w optionsJson c)) !! ("user_" +:+ userId)
    = cache c !! ("user_" +:+ userId)
    ∧ cache (after (getUserById w userId c)) !! ("users_list_" +:+ optionsJson)
      = cache c !! ("users_list_" +:+ optionsJson).
Proof.
  intros w userId optionsJson c. unfold listUsers, getUserById.
  split; apply other_keys_untouched; discriminate.
Qed.

(** X10: [createUser] and [testConnection] go around the cache: the API is
    called once whatever is stored, the instance is left as it is,
    [createUser] settles as the race does, and [testConnection] answers
    [true] exactly when the call fulfilled before the timer fired, whatever
    it fulfilled with. *)
Theorem createUser_and_testConnection_bypass_the_cache :
  ∀ (w : Run) (c : RobustSupabaseClient),
    createUser w c = {| settled := race (raced w); after := c; invocations := 1 |}
    ∧ snd (testConnection w c) = c
    ∧ (fst (testConnection w c) = true ↔ ∃ v, raced w = OperationSettles (Fulfilled v))
    ∧ (fst (testConnection w c) = false
       ↔ raced w = TimerFires ∨ ∃ e, raced w = OperationSettles (Rejected e)).
Proof.
  intros w c. unfold createUser, testConnection.
  rewrite (unusable_key_passes_through w None false c eq_refl). cbn [settled after].
  split; [done|].
  destruct (raced w) as [[v|e]|]; cbn [race fst snd].
  - split; [done|]. split; [split; eauto|]. split; [done|]. intros [?|[? ?]]; done.
  - split; [done|]. split; [split; [done|intros [? ?]; done]|]. split; eauto.
  - split; [done|]. split; [split; [done|intros [? ?]; done]|]. split; eauto.
Qed.

(** A call of any operation leaves the instance in a reachable state. *)
Lemma reachable_any w key useCache c :
  reachable c → reachable (after (executeWithFallbackAny w key useCache c)).
Proof.
  intros Hc. unfold executeWithFallbackAny.
  destruct (cacheHit _ _ c); [done|].
  destruct (contest w) as [r|typeError]; cbn [resumeAny]; [|done].
  pose proof (reachable_resume (endedAt w) key useCache r c Hc) as H.
  by destruct (resume _ _ r c).
Qed.

(** *** Failure, in the state of the catch *)

(** X28: The stale fallback reads the cache as it is when the race rejects,
    whatever other calls stored or swept during the [await].  In any
    reachable state, the second half of a call with caching on and key [k]
    whose race rejected with an error object or was lost to the timer
    returns the value of the entry stored under [k], however old, when there
    is one; when there is none it rejects with that same error.  It leaves
    the cache as it is. *)
Theorem failure_falls_back_in_the_state_it_finds :
  ∀ (now : Z) (k : string) (r : Race) (e : Error) (c : RobustSupabaseClient),
    reachable c →
    race r = Rejected e →
    (∀ ent, cache c !! k = Some ent →
            resumeAny now (cacheUsable true (Some k)) (RaceOfObjects r) c
            = (Fulfilled (data ent), c))
    ∧ (cache c !! k = None →
       resumeAny now (cacheUsable true (Some k)) (RaceOfObjects r) c = (Rejected e, c)).
Proof.
  intros now k r e c Hreach Hrace.
  apply reachable_wellFormed in Hreach.
  unfold resumeAny, resume. rewrite Hrace, onError_afterFailure.
  unfold afterFailure, fallbackEntry.
  destruct (decide (k = EmptyString)) as [->|Hk].
  - rewrite cacheUsable_empty_key. split; [|done].
    intros ent Hent. by destruct (Hreach _ _ Hent).
  - rewrite cacheUsable_given by done. split.
    + intros ent Hent. rewrite Hent.
      destruct (Hreach _ _ Hent) as [_ ->]. done.
    + by intros ->.
Qed.

(** The theorem at an entry stored at time 5 and a rejection at time
    400001, when the entry is long stale: its value is returned. *)
Lemma failure_falls_back_witness :
  reachable (after (executeWithFallback
                      (mkRun 0 (OperationSettles (Fulfilled (Str "rows"))) 5)
                      (Some "user_1") true new))
  ∧ race (OperationSettles (Rejected {| message := "fetch failed" |}))
    = Rejected {| message := "fetch failed" |}
  ∧ fst (resumeAny 400001 (cacheUsable true (Some "user_1"))
           (RaceOfObjects (OperationSettles (Rejected {| message := "fetch failed" |})))
           (after (executeWithFallback
                     (mkRun 0 (OperationSettles (Fulfilled (Str "rows"))) 5)
                     (Some "user_1") true new)))
    = Fulfilled (Str "rows").
Proof.
  split; [apply reachable_call, reachable_new|]. split; [reflexivity|].
  destruct (failure_falls_back_in_the_state_it_finds
              400001 "user_1"
              (OperationSettles (Rejected {| message := "fetch failed" |}))
              {| message := "fetch failed" |}
              (after (executeWithFallback
                        (mkRun 0 (OperationSettles (Fulfilled (Str "rows"))) 5)
                        (Some "user_1") true new))
              (reachable_call _ _ _ _ reachable_new) eq_refl)
    as [Hstored _].
  rewrite (Hstored {| data := Str "rows"; timestamp := 5 |}); [reflexivity|].
  vm_compute. reflexivity.
Defined.

End ExecutorMore.

(** ** More on the prober *)

Module ProberMore.
Import Js Prober ProberProps.

(** *** The capped history *)

Lemma recordAttempt_length ok lat err m :
  (length (connectionHistory m) ≤ 10)%nat →
  (length (connectionHistory (recordAttempt ok lat err m)) ≤ 10)%nat.
Proof.
  intros H. rewrite recordAttempt_history, length_app. cbn [length].
  destruct (10 <? length (connectionHistory m) + 1)%nat eqn:X; [|apply Nat.ltb_ge in X; lia].
  destruct (connectionHistory m); simpl in *; lia.
Qed.

Lemma testConnection_length p m :
  (length (connectionHistory m) ≤ 10)%nat →
  (length (connectionHistory (snd (testConnection p m))) ≤ 10)%nat.
Proof.
  intros H. rewrite testConnection_probeError.
  destruct (probeError p); [done|]. by apply recordAttempt_length.
Qed.

Lemma tryConfigurations_length net u k candidates :
  ∀ log m,
    (length (connectionHistory m) ≤ 10)%nat →
    (length (connectionHistory (after (tryConfigurations net u k candidates log m))) ≤ 10)%nat.
Proof.
  induction candidates as [|cand rest IH]; intros log m H; [done|].
  cbn [tryConfigurations]. rewrite testConnection_probeError.
  destruct (probeError (net (length log))).
  - apply IH. by apply recordAttempt_length.
  - cbn [after remember connectionHistory]. by apply recordAttempt_length.
Qed.

Lemma getWorkingClient_length net u k m :
  (length (connectionHistory m) ≤ 10)%nat →
  (length (connectionHistory (after (getWorkingClient net u k m))) ≤ 10)%nat.
Proof.
  intros H. unfold getWorkingClient.
  destruct (lastSuccessfulConfig m); [|by apply tryConfigurations_length].
  rewrite testConnection_probeError.
  destruct (probeError (net 0%nat)).
  - by apply tryConfigurations_length.
  - cbn [after]. by apply recordAttempt_length.
Qed.

(** X11: However many calls a manager has served, its history never holds more
    than ten records, so the statistics never count more than ten
    attempts. *)
Theorem history_never_exceeds_ten :
  ∀ m : SupabaseConnectionManager,
    reachable m →
    (length (connectionHistory m) ≤ 10)%nat
    ∧ (total (getConnectionStats m) ≤ 10)%nat.
Proof.
  intros m Hm.
  assert (length (connectionHistory m) ≤ 10)%nat as H.
  { induction Hm as [|net u k m _ IH]; [simpl; lia|]. by apply getWorkingClient_length. }
  split; [exact H|exact H].
Qed.

(** The theorem after three calls against a service that is down: twelve
    failed probes were recorded, ten records are held. *)
Lemma history_cap_witness :
  length (connectionHistory
            (after (getWorkingClient
                      (λ _, {| reply := Rejected {| Js.message := "fetch failed" |}; elapsed := 0 |})
                      "https://db.example" "service-key"
              (after (getWorkingClient
                        (λ _, {| reply := Rejected {| Js.message := "fetch failed" |}; elapsed := 0 |})
                        "https://db.example" "service-key"
                (after (getWorkingClient
                          (λ _, {| reply := Rejected {| Js.message := "fetch failed" |}; elapsed := 0 |})
                          "https://db.example" "service-key" new))))))) = 10%nat
  ∧ (length (connectionHistory
            (after (getWorkingClient
                      (λ _, {| reply := Rejected {| Js.message := "fetch failed" |}; elapsed := 0 |})
                      "https://db.example" "service-key"
              (after (getWorkingClient
                        (λ _, {| reply := Rejected {| Js.message := "fetch failed" |}; elapsed := 0 |})
                        "https://db.example" "service-key"
                (after (getWorkingClient
                          (λ _, {| reply := Rejected {| Js.message := "fetch failed" |}; elapsed := 0 |})
                          "https://db.example" "service-key" new))))))) ≤ 10)%nat.
Proof.
  split; [vm_compute; reflexivity|].
  apply history_never_exceeds_ten.
  do 3 apply reachable_call. apply reachable_new.
Defined.

(** One [push] and [shift] on a history of at most ten keeps its last ten. *)
Lemma cap_step (h : list ConnectionAttempt) a :
  (length h ≤ 10)%nat →
  (if (10 <? length h + 1)%nat then tail h else h) ++ [a]
  = drop (length (h ++ [a]) - 10) (h ++ [a]).
Proof.
  intros H. rewrite length_app. cbn [length].
  destruct (10 <? length h + 1)%nat eqn:X.
  - apply Nat.ltb_lt in X.
    replace (length h + 1 - 10)%nat with 1%nat by lia.
    destruct h; [simpl in X; lia|done].
  - apply Nat.ltb_ge in X.
    replace (length h + 1 - 10)%nat with 0%nat by lia. done.
Qed.

(** X12: The history is a ring of the last ten attempts: recording any run of
    attempts on a history of at most ten leaves the last ten of the old
    records followed by the new ones, in order. *)
Theorem history_keeps_the_last_ten :
  ∀ (attempts : list ConnectionAttempt) (m : SupabaseConnectionManager),
    (length (connectionHistory m) ≤ 10)%nat →
    connectionHistory (recordAll attempts m)
    = drop (length (connectionHistory m ++ attempts) - 10)
        (connectionHistory m ++ attempts).
Proof.
  induction attempts as [|a attempts IH] using rev_ind; intros m H.
  - simpl. rewrite app_nil_r.
    replace (length (connectionHistory m) - 10)%nat with 0%nat by lia. done.
  - unfold recordAll in *. rewrite foldl_app. cbn [foldl].
    rewrite recordAttempt_history, (IH m H).
    destruct a as [ok lat err]. cbn [success latency error].
    set (L := connectionHistory m ++ attempts).
    rewrite cap_step by (rewrite length_drop; lia).
    assert (drop (length L - 10) L ++ [ {| success := ok; latency := lat; error := err |} ]
            = drop (length L - 10) (L ++ [ {| success := ok; latency := lat; error := err |} ])) as ->.
    { symmetry. apply drop_app_le. lia. }
    rewrite drop_drop, app_assoc. fold L.
    f_equal. rewrite length_drop, !length_app. cbn [length]. lia.
Qed.

(** The theorem at twelve attempts recorded on a fresh manager: the first
    two are gone. *)
Lemma history_ring_witness :
  (length (connectionHistory new) ≤ 10)%nat
  ∧ connectionHistory
      (recordAll ((λ n, {| success := true; latency := Z.of_nat n; error := None |}) <$> seq 0 12) new)
    = (λ n, {| success := true; latency := Z.of_nat n; error := None |}) <$> seq 2 10.
Proof.
  split; [simpl; lia|].
  rewrite (history_keeps_the_last_ten
             ((λ n, {| success := true; latency := Z.of_nat n; error := None |}) <$> seq 0 12)
             new); [reflexivity|simpl; lia].
Defined.

(** *** Every way a call can go *)

(** The loop in full: which candidates failed, how it ended, what it left
    in the manager and which clients it probed. *)
Lemma tryConfigurations_run net u k candidates :
  ∀ (log : list SupabaseClient) (m : SupabaseConnectionManager),
    ∃ es : list Error,
      (length es ≤ length candidates)%nat
      ∧ (∀ i e, es !! i = Some e → probeError (net (length log + i)%nat) = Some e)
      ∧ ((length es = length candidates
          ∧ tryConfigurations net u k candidates log m
            = {| settled := Rejected allFailedError;
                 after := recordFailures es m;
                 probed := log ++ (clientOf u k <$> candidates) |})
         ∨ (∃ cand,
              candidates !! length es = Some cand
              ∧ probeError (net (length log + length es)%nat) = None
              ∧ tryConfigurations net u k candidates log m
                = {| settled := Fulfilled (clientOf u k cand);
                     after := remember (config cand)
                                (recordAttempt true (elapsed (net (length log + length es)%nat)) None
                                   (recordFailures es m));
                     probed := log ++ (clientOf u k <$> take (length es) candidates)
                                   ++ [clientOf u k cand] |})).
Proof.
  induction candidates as [|cand rest IH]; intros log m.
  - exists []. split; [done|]. split; [done|]. left. split; [done|].
    simpl. by rewrite app_nil_r.
  - cbn [tryConfigurations]. rewrite testConnection_probeError.
    destruct (probeError (net (length log))) as [e|] eqn:P.
    + destruct (IH (log ++ [createClient u k (config cand)])
                  (recordAttempt false 0 (Some (Js.message e)) m))
        as (es & Hlen & Herr & Hend).
      rewrite length_app in Herr, Hend. cbn [length] in Herr, Hend.
      exists (e :: es). split; [simpl; lia|]. split.
      * intros [|i] e'; simpl.
        -- intros [= <-]. by rewrite Nat.add_0_r.
        -- intros Hi. replace (length log + S i)%nat with (length log + 1 + i)%nat by lia.
           by apply Herr.
      * cbn [length].
        replace (length log + S (length es))%nat with (length log + 1 + length es)%nat by lia.
        destruct Hend as [(Hall & ->)|(cand' & Hc & Hp & ->)].
        -- left. split; [lia|]. f_equal. rewrite <- app_assoc. done.
        -- right. exists cand'. split; [done|]. split; [done|].
           f_equal. rewrite <- app_assoc. done.
    + exists []. split; [simpl; lia|]. split; [done|].
      right. exists cand. cbn [length]. rewrite Nat.add_0_r, P. done.
Qed.

(** [getWorkingClient] as the optional remembered probe followed by the
    loop. *)
Lemma getWorkingClient_cases net u k m :
  (∃ cfg, lastSuccessfulConfig m = Some cfg
          ∧ probeError (net 0%nat) = None
          ∧ getWorkingClient net u k m
            = {| settled := Fulfilled (createClient u k cfg);
                 after := recordAttempt true (elapsed (net 0%nat)) None m;
                 probed := [createClient u k cfg] |})
  ∨ (∃ log, length log = probesBeforeLoop m
            ∧ (∀ cfg, lastSuccessfulConfig m = Some cfg → probeError (net 0%nat) ≠ None)
            ∧ getWorkingClient net u k m = tryConfigurations net u k configurations log m).
Proof.
  unfold getWorkingClient, probesBeforeLoop.
  destruct (lastSuccessfulConfig m) as [cfg|] eqn:Hcfg.
  - rewrite testConnection_probeError.
    destruct (probeError (net 0%nat)) as [e|] eqn:P.
    + right. exists [createClient u k cfg]. split; [done|]. split; [|done].
      intros cfg' _. done.
    + left. exists cfg. done.
  - right. exists []. split; [done|]. split; [|done]. intros cfg' Hc. done.
Qed.

Lemma remember_history cfg m :
  connectionHistory (remember cfg m) = connectionHistory m.
Proof. done. Qed.

(** X13: Whenever a call returns a client, that client was built from the
    endpoint and credential of the call and from the configuration the
    manager remembers afterwards; it is the last client probed, and the last
    record of the history is its successful attempt. *)
Theorem returned_client_is_the_remembered_one :
  ∀ (net : nat → Probe) (u k : string) (m : SupabaseConnectionManager)
    (client : SupabaseClient),
    settled (getWorkingClient net u k m) = Fulfilled client →
    url client = u
    ∧ serviceKey client = k
    ∧ lastSuccessfulConfig (after (getWorkingClient net u k m)) = Some (options client)
    ∧ last (probed (getWorkingClient net u k m)) = Some client
    ∧ ∃ lat, last (connectionHistory (after (getWorkingClient net u k m)))
             = Some {| success := true; latency := lat; error := None |}.
Proof.
  intros net u k m client.
  destruct (getWorkingClient_cases net u k m)
    as [(cfg & Hcfg & _ & ->)|(log & _ & _ & ->)].
  - cbn [settled after probed]. intros [= <-]. cbn [url serviceKey options].
    split; [done|]. split; [done|]. split; [done|]. split; [done|].
    eexists. apply recordAttempt_last.
  - destruct (tryConfigurations_run net u k configurations log m)
      as (es & _ & _ & [(_ & ->)|(cand & _ & _ & ->)]); cbn [settled after probed].
    + discriminate.
    + intros [= <-]. unfold clientOf. cbn [url serviceKey options].
      split; [done|]. split; [done|]. split; [done|]. split.
      * rewrite app_assoc. apply last_snoc.
      * eexists. rewrite remember_history. apply recordAttempt_last.
Qed.

(** X14: A call fails in one way only: with the final error, after the probe of
    every candidate (and of the remembered configuration, when there is one)
    has thrown.  The remembered configuration is then left as it was, even
    though it just failed. *)
Theorem failure_means_every_probe_failed :
  ∀ (net : nat → Probe) (u k : string) (m : SupabaseConnectionManager) (e : Error),
    settled (getWorkingClient net u k m) = Rejected e →
    e = allFailedError
    ∧ lastSuccessfulConfig (after (getWorkingClient net u k m)) = lastSuccessfulConfig m
    ∧ length (probed (getWorkingClient net u k m))
      = (probesBeforeLoop m + length configurations)%nat
    ∧ ∀ i, (i < probesBeforeLoop m + length configurations)%nat →
           probeError (net i) ≠ None.
Proof.
  intros net u k m e.
  destruct (getWorkingClient_cases net u k m)
    as [(cfg & Hcfg & _ & ->)|(log & Hlog & Hrem & ->)]; [discriminate|].
  destruct (tryConfigurations_run net u k configurations log m)
    as (es & _ & Herr & [(Hall & ->)|(cand & _ & _ & ->)]); cbn [settled after probed];
    [|discriminate].
  intros [= <-]. split; [done|]. split; [apply recordFailures_config|]. split.
  - rewrite length_app, length_fmap. lia.
  - intros i Hi. rewrite <- Hlog in Hi.
    destruct (decide (i < length log)%nat) as [Hlt|Hge].
    + unfold probesBeforeLoop in Hlog.
      destruct (lastSuccessfulConfig m) as [cfg|] eqn:Hcfg; [|lia].
      assert (i = 0)%nat as -> by lia. by apply (Hrem cfg).
    + destruct (lookup_lt_is_Some_2 es (i - length log)) as [e' He']; [lia|].
      apply Herr in He'. replace (length log + (i - length log))%nat with i in He' by lia.
      congruence.
Qed.

(** X15: A call probes at least one client and at most one per candidate plus
    the remembered one: never more than five. *)
Theorem probe_count_is_bounded :
  ∀ (net : nat → Probe) (u k : string) (m : SupabaseConnectionManager),
    (1 ≤ length (probed (getWorkingClient net u k m))
     ≤ probesBeforeLoop m + length configurations)%nat
    ∧ (probesBeforeLoop m + length configurations ≤ 5)%nat.
Proof.
  intros net u k m. split; [|unfold probesBeforeLoop; destruct (lastSuccessfulConfig m); simpl; lia].
  pose proof (eq_refl : length configurations = 4%nat) as H4.
  destruct (getWorkingClient_cases net u k m)
    as [(cfg & Hcfg & _ & ->)|(log & Hlog & _ & ->)].
  - cbn [probed length]. unfold probesBeforeLoop. rewrite Hcfg. simpl. lia.
  - destruct (tryConfigurations_run net u k configurations log m)
      as (es & Hlen & _ & [(_ & ->)|(cand & Hc & _ & ->)]); cbn [probed];
      rewrite ?length_app, ?length_fmap, ?length_take; cbn [length].
    + lia.
    + apply lookup_lt_Some in Hc. lia.
Qed.

(** X16: The first candidate whose probe does not throw wins: its client is
    returned and its configuration remembered, no later candidate is probed,
    and the history gains one failed record per earlier candidate and then
    the successful one. *)
Theorem first_answering_candidate_wins :
  ∀ (net : nat → Probe) (u k : string) (m : SupabaseConnectionManager)
    (i : nat) (cand : Candidate),
    (∀ cfg, lastSuccessfulConfig m = Some cfg → probeError (net 0%nat) ≠ None) →
    configurations !! i = Some cand →
    (∀ j, (j < i)%nat → probeError (net (probesBeforeLoop m + j)%nat) ≠ None) →
    probeError (net (probesBeforeLoop m + i)%nat) = None →
    settled (getWorkingClient net u k m) = Fulfilled (clientOf u k cand)
    ∧ lastSuccessfulConfig (after (getWorkingClient net u k m)) = Some (config cand)
    ∧ length (probed (getWorkingClient net u k m)) = (probesBeforeLoop m + i + 1)%nat
    ∧ ∃ es, length es = i
            ∧ (∀ j e, es !! j = Some e → probeError (net (probesBeforeLoop m + j)%nat) = Some e)
            ∧ connectionHistory (after (getWorkingClient net u k m))
              = connectionHistory
                  (recordAttempt true (elapsed (net (probesBeforeLoop m + i)%nat)) None
                     (recordFailures es m)).
Proof.
  intros net u k m i cand Hrem Hcand Hbefore Hi.
  destruct (getWorkingClient_cases net u k m)
    as [(cfg & Hcfg & P0 & _)|(log & Hlog & _ & ->)]; [by destruct (Hrem cfg Hcfg)|].
  rewrite <- Hlog in *.
  destruct (tryConfigurations_run net u k configurations log m)
    as (es & Hlen & Herr & Hend).
  assert (length es = i) as Hes.
  { destruct (Nat.lt_trichotomy (length es) i) as [Hlt|[Heq|Hgt]]; [|done|].
    - destruct Hend as [(Hall & _)|(cand' & _ & Hp & _)].
      + apply lookup_lt_Some in Hcand. lia.
      + by destruct (Hbefore _ Hlt).
    - destruct (lookup_lt_is_Some_2 es i Hgt) as [e' He'].
      apply Herr in He'. congruence. }
  destruct Hend as [(Hall & _)|(cand' & Hc & _ & ->)].
  { apply lookup_lt_Some in Hcand. lia. }
  rewrite Hes in *. assert (cand' = cand) as -> by congruence.
  cbn [settled after probed]. split; [done|]. split; [done|]. split.
  - rewrite !length_app, length_fmap, length_take. cbn [length].
    apply lookup_lt_Some in Hcand. lia.
  - exists es. split; [done|]. split; [done|]. done.
Qed.

(** The theorem at a service that answers the first probe. *)
Lemma returned_client_witness :
  settled (getWorkingClient (λ _, {| reply := Fulfilled None; elapsed := 80 |})
             "https://db.example" "service-key" new)
  = Fulfilled (createClient "https://db.example" "service-key"
                 {| connectionHeader := Some "close"; fetchTimeout := Some 5000 |})
  ∧ lastSuccessfulConfig
      (after (getWorkingClient (λ _, {| reply := Fulfilled None; elapsed := 80 |})
                "https://db.example" "service-key" new))
    = Some {| connectionHeader := Some "close"; fetchTimeout := Some 5000 |}.
Proof.
  split; [reflexivity|].
  apply (returned_client_is_the_remembered_one
           (λ _, {| reply := Fulfilled None; elapsed := 80 |})
           "https://db.example" "service-key" new
           (createClient "https://db.example" "service-key"
              {| connectionHeader := Some "close"; fetchTimeout := Some 5000 |})
           eq_refl).
Defined.

(** The theorem at a manager that remembers a configuration and a service
    that is down. *)
Lemma failure_witness :
  settled (getWorkingClient
             (λ _, {| reply := Rejected {| Js.message := "fetch failed" |}; elapsed := 0 |})
             "https://db.example" "service-key"
             {| connectionHistory := [];
                lastSuccessfulConfig := Some {| connectionHeader := None; fetchTimeout := None |} |})
  = Rejected allFailedError
  ∧ lastSuccessfulConfig
      (after (getWorkingClient
                (λ _, {| reply := Rejected {| Js.message := "fetch failed" |}; elapsed := 0 |})
                "https://db.example" "service-key"
                {| connectionHistory := [];
                   lastSuccessfulConfig := Some {| connectionHeader := None; fetchTimeout := None |} |}))
    = Some {| connectionHeader := None; fetchTimeout := None |}.
Proof.
  split; [reflexivity|].
  apply (failure_means_every_probe_failed
           (λ _, {| reply := Rejected {| Js.message := "fetch failed" |}; elapsed := 0 |})
           "https://db.example" "service-key"
           {| connectionHistory := [];
              lastSuccessfulConfig := Some {| connectionHeader := None; fetchTimeout := None |} |}
           allFailedError eq_refl).
Defined.

(** The theorem at a service that throws twice and then answers: the third
    candidate wins. *)
Lemma first_answering_witness :
  configurations !! 2%nat
  = Some {| name := "Long timeout basic";
            config := {| connectionHeader := None; fetchTimeout := Some 20000 |} |}
  ∧ settled (getWorkingClient
               (λ n, if (n <? 2)%nat
                     then {| reply := Rejected {| Js.message := "fetch failed" |}; elapsed := 0 |}
                     else {| reply := Fulfilled None; elapsed := 300 |})
               "https://db.example" "service-key" new)
    = Fulfilled (createClient "https://db.example" "service-key"
                   {| connectionHeader := None; fetchTimeout := Some 20000 |}).
Proof.
  split; [reflexivity|].
  apply (first_answering_candidate_wins
           (λ n, if (n <? 2)%nat
                 then {| reply := Rejected {| Js.message := "fetch failed" |}; elapsed := 0 |}
                 else {| reply := Fulfilled None; elapsed := 300 |})
           "https://db.example" "service-key" new 2%nat
           {| name := "Long timeout basic";
              config := {| connectionHeader := None; fetchTimeout := Some 20000 |} |}).
  - intros cfg Hcfg. discriminate Hcfg.
  - reflexivity.
  - intros j Hj. destruct j as [|[|j]]; [discriminate|discriminate|lia].
  - reflexivity.
Defined.

(** *** Bounds on the statistics *)

Lemma sumLatency_bounds lo hi (l : list ConnectionAttempt) :
  (∀ a, a ∈ l → lo ≤ Prober.latency a ≤ hi) →
  Z.of_nat (length l) * lo ≤ sumLatency l ≤ Z.of_nat (length l) * hi.
Proof.
  unfold sumLatency.
  assert (∀ acc, (∀ a, a ∈ l → lo ≤ Prober.latency a ≤ hi) →
                 acc + Z.of_nat (length l) * lo
                 ≤ fold_left (λ sum a, sum + Prober.latency a) l acc
                 ≤ acc + Z.of_nat (length l) * hi) as H.
  { induction l as [|a l IH]; intros acc Hl; [simpl; lia|].
    cbn [fold_left length].
    specialize (IH (acc + Prober.latency a) (λ b Hb, Hl b (list_elem_of_further _ _ _ Hb))).
    specialize (Hl a (list_elem_of_here _ _)). lia. }
  intros Hl. specialize (H 0 Hl). lia.
Qed.

(** X17: The success rate is a percentage: it lies between 0 and 100, and the
    successful attempts are never more than the total. *)
Theorem success_rate_is_a_percentage :
  ∀ m : SupabaseConnectionManager,
    (successful (getConnectionStats m) ≤ total (getConnectionStats m))%nat
    ∧ ∃ rate : Q,
        successRate (getConnectionStats m) = Finite rate
        ∧ (0 <= rate)%Q ∧ (rate <= 100)%Q.
Proof.
  intros [h cfg]. unfold getConnectionStats. cbn [connectionHistory total successful successRate].
  pose proof (filter_length_le success h) as Hle. fold (successes h) in Hle.
  split; [exact Hle|].
  destruct h as [|a h]; [exists 0%Q; done|].
  cbn [length Nat.ltb Nat.leb] in *. unfold divide.
  replace (Z.of_nat (S (length h)) =? 0) with false by (symmetry; apply Z.eqb_neq; lia).
  cbn [times100]. eexists. split; [reflexivity|].
  rewrite Nat2Z.inj_succ, <- Zpos_P_of_succ_nat.
  set (s := Z.of_nat (length (successes (a :: h)))).
  assert (0 ≤ s ≤ Z.pos (Pos.of_succ_nat (length h))) as Hs by (unfold s; lia).
  unfold Qle, Qdiv, Qmult, Qinv, inject_Z; simpl. split; lia.
Qed.

(** X18: With at least one successful attempt, the average latency lies between
    the smallest and the largest latency of the successful attempts: failed
    attempts, recorded with latency 0, do not pull it down. *)
Theorem average_latency_is_within_the_successes :
  ∀ (m : SupabaseConnectionManager) (lo hi : Z),
    successes (connectionHistory m) ≠ [] →
    (∀ a, a ∈ connectionHistory m → success a = true → lo ≤ Prober.latency a ≤ hi) →
    ∃ avg : Z,
      averageLatency (getConnectionStats m) = Finite (inject_Z avg)
      ∧ lo ≤ avg ≤ hi.
Proof.
  intros [h cfg] lo hi Hne Hrange. unfold getConnectionStats.
  cbn [connectionHistory averageLatency] in *.
  assert (∀ a, a ∈ successes h → lo ≤ Prober.latency a ≤ hi) as Hsucc.
  { intros a Ha. apply list_elem_of_In, filter_In in Ha as [Hin Hok].
    apply Hrange; [by apply list_elem_of_In|done]. }
  apply sumLatency_bounds in Hsucc.
  destruct (successes h) as [|s ss]; [done|].
  destruct (rounded_average (sumLatency (s :: ss)) (Pos.of_succ_nat (length ss)))
    as (avg & Havg & Hb).
  rewrite Zpos_P_of_succ_nat, <- Nat2Z.inj_succ in Havg, Hb.
  exists avg. split; [exact Havg|].
  cbn [length] in *. nia.
Qed.

(** The theorem at one failure and two successes of 100 ms and 131 ms: the
    average is 116. *)
Lemma average_latency_witness :
  averageLatency
    (getConnectionStats
       {| connectionHistory := [ {| success := false; latency := 0; error := Some "fetch failed" |};
                                 {| success := true; latency := 100; error := None |};
                                 {| success := true; latency := 131; error := None |} ];
          lastSuccessfulConfig := None |})
  = Finite (inject_Z 116)
  ∧ ∃ avg : Z,
      averageLatency
        (getConnectionStats
           {| connectionHistory := [ {| success := false; latency := 0; error := Some "fetch failed" |};
                                     {| success := true; latency := 100; error := None |};
                                     {| success := true; latency := 131; error := None |} ];
              lastSuccessfulConfig := None |})
      = Finite (inject_Z avg)
      ∧ 100 ≤ avg ≤ 131.
Proof.
  split; [vm_compute; reflexivity|].
  apply (average_latency_is_within_the_successes
           {| connectionHistory := [ {| success := false; latency := 0; error := Some "fetch failed" |};
                                     {| success := true; latency := 100; error := None |};
                                     {| success := true; latency := 131; error := None |} ];
              lastSuccessfulConfig := None |} 100 131).
  - discriminate.
  - intros a Ha Hok. cbn [connectionHistory] in Ha.
    repeat (apply elem_of_cons in Ha as [->|Ha]; [simpl in *; try discriminate; lia|]).
    by apply elem_of_nil in Ha.
Defined.

End ProberMore.

(** ** Properties of the health checks *)

Module HealthProps.
Import Js Health.

(** [error.message || fallback] is never empty when the fallback is not. *)
Lemma messageOr_nonempty fallback e :
  fallback ≠ EmptyString → messageOr fallback e ≠ EmptyString.
Proof.
  intros Hf. unfold messageOr, truthy_string.
  destruct (String.eqb_spec (message e) EmptyString); simpl; done.
Qed.

(** X19: A health check never throws and reports healthy exactly when the
    query settled by fulfilling before the timer, whatever it fulfilled
    with, an error response included.  The latency is always reported; an
    unhealthy report always carries a non-empty error text, "Connection
    timeout" when the timer won and "Unknown connection error" when the
    rejection had an empty message. *)
Theorem health_is_the_race :
  ∀ k : Check,
    (isHealthy (checkSupabaseHealth k) = true ↔ ∃ v, raced k = QuerySettles (Fulfilled v))
    ∧ latency (checkSupabaseHealth k) = Some (endTime k - startTime k)
    ∧ (isHealthy (checkSupabaseHealth k) = true → error (checkSupabaseHealth k) = None)
    ∧ (isHealthy (checkSupabaseHealth k) = false →
       ∃ text, error (checkSupabaseHealth k) = Some text ∧ text ≠ EmptyString)
    ∧ (raced k = TimerFires → error (checkSupabaseHealth k) = Some "Connection timeout")
    ∧ (raced k = QuerySettles (Rejected {| message := "" |}) →
       error (checkSupabaseHealth k) = Some "Unknown connection error").
Proof.
  intros [t0 r t1]. unfold checkSupabaseHealth. cbn [raced startTime endTime].
  destruct r as [[v|e]|]; cbn [race isHealthy latency error].
  - split; [split; eauto|]. repeat (split; [done|]). done.
  - split; [split; [done|intros [? ?]; done]|]. split; [done|]. split; [done|].
    split; [|split; [done|]].
    + intros _. eexists. split; [done|]. by apply messageOr_nonempty.
    + by intros [= ->].
  - split; [split; [done|intros [? ?]; done]|]. split; [done|]. split; [done|].
    split; [|done]. intros _. by eexists.
Qed.

(** *** The waiting loop *)

Lemma backoff_S baseDelay from n :
  backoff baseDelay from (S n)
  = baseDelay * 2 ^ Z.of_nat from :: backoff baseDelay (S from) n.
Proof. done. Qed.

Lemma backoff_snoc baseDelay from n :
  backoff baseDelay from (S n)
  = backoff baseDelay from n ++ [baseDelay * 2 ^ Z.of_nat (from + n)].
Proof.
  unfold backoff. rewrite seq_S, fmap_app. done.
Qed.

(** The naps add up to a geometric sum. *)
Lemma backoff_total baseDelay n :
  ∀ from, foldr Z.add 0 (backoff baseDelay from n)
          = baseDelay * 2 ^ Z.of_nat from * (2 ^ Z.of_nat n - 1).
Proof.
  induction n as [|n IH]; intros from.
  - simpl. lia.
  - rewrite backoff_S. cbn [foldr]. rewrite IH.
    rewrite !Nat2Z.inj_succ, !Z.pow_succ_r by lia. ring.
Qed.

(** While the checks come back unhealthy and attempts remain, the loop
    sleeps and goes on. *)
Lemma waitLoop_skip world maxRetries baseDelay i :
  ∀ (left done : nat) (naps : list Z),
    (∀ j, (j < i)%nat → isHealthy (checkSupabaseHealth (world (done + j)%nat)) = false) →
    (i < left)%nat →
    Z.of_nat (done + left) = maxRetries →
    waitLoop world maxRetries baseDelay left (Z.of_nat done + 1) done naps
    = waitLoop world maxRetries baseDelay (left - i) (Z.of_nat (done + i) + 1) (done + i)
        (naps ++ backoff baseDelay done i).
Proof.
  induction i as [|i IH]; intros left done naps Hbad Hlt Hmax.
  - rewrite Nat.sub_0_r, Nat.add_0_r. unfold backoff; simpl. by rewrite app_nil_r.
  - destruct left as [|left]; [lia|]. cbn [waitLoop].
    specialize (Hbad 0%nat ltac:(lia)) as H0. rewrite Nat.add_0_r in H0. rewrite H0.
    replace (Z.of_nat done + 1 =? maxRetries) with false
      by (symmetry; apply Z.eqb_neq; lia).
    replace (Z.of_nat done + 1 + 1) with (Z.of_nat (S done) + 1) by lia.
    replace (Z.of_nat done + 1 - 1) with (Z.of_nat done) by lia.
    rewrite (IH left (S done)); [| |lia|lia].
    + rewrite backoff_S, <- app_assoc. cbn [app Nat.sub].
      replace (S done + i)%nat with (done + S i)%nat by lia. done.
    + intros j Hj. replace (S done + j)%nat with (done + S j)%nat by lia.
      apply Hbad. lia.
Qed.

(** X20: When every check is unhealthy, [waitForSupabaseConnection] with
    [maxRetries >= 1] runs exactly [maxRetries] checks, sleeps
    [baseDelay], [2 * baseDelay], ... between them ([maxRetries - 1] naps,
    [baseDelay * (2 ^ (maxRetries - 1) - 1)] in all) and rejects with the
    error that quotes the last check's error text. *)
Theorem waiting_gives_up_after_maxRetries :
  ∀ (world : nat → Check) (maxRetries baseDelay : Z),
    1 ≤ maxRetries →
    (∀ j, (j < Z.to_nat maxRetries)%nat →
          isHealthy (checkSupabaseHealth (world j)) = false) →
    waitForSupabaseConnection world maxRetries baseDelay
    = {| settled := Rejected (failedToConnect maxRetries
                                (checkSupabaseHealth (world (Z.to_nat maxRetries - 1)%nat)));
         checks := Z.to_nat maxRetries;
         slept := backoff baseDelay 0 (Z.to_nat maxRetries - 1) |}
    ∧ foldr Z.add 0 (slept (waitForSupabaseConnection world maxRetries baseDelay))
      = baseDelay * (2 ^ (maxRetries - 1) - 1).
Proof.
  intros world maxRetries baseDelay Hmax Hbad.
  assert (waitForSupabaseConnection world maxRetries baseDelay
          = {| settled := Rejected (failedToConnect maxRetries
                                      (checkSupabaseHealth (world (Z.to_nat maxRetries - 1)%nat)));
               checks := Z.to_nat maxRetries;
               slept := backoff baseDelay 0 (Z.to_nat maxRetries - 1) |}) as Hrun.
  { unfold waitForSupabaseConnection.
    change 1 with (Z.of_nat 0 + 1) at 1.
    rewrite (waitLoop_skip world maxRetries baseDelay (Z.to_nat maxRetries - 1));
      [| intros j Hj; apply Hbad; lia | lia | lia ].
    replace (Z.to_nat maxRetries - (Z.to_nat maxRetries - 1))%nat with 1%nat by lia.
    cbn [waitLoop Nat.add app].
    rewrite (Hbad (Z.to_nat maxRetries - 1)%nat) by lia.
    replace (Z.of_nat (Z.to_nat maxRetries - 1) + 1 =? maxRetries) with true
      by (symmetry; apply Z.eqb_eq; lia).
    f_equal. lia. }
  split; [exact Hrun|]. rewrite Hrun. cbn [slept].
  rewrite backoff_total. change (Z.of_nat 0) with 0. rewrite Z.pow_0_r.
  replace (Z.of_nat (Z.to_nat maxRetries - 1)) with (maxRetries - 1) by lia.
  ring.
Qed.

(** X21: The first healthy check ends the wait: no further check is made, and
    the naps before it are the ones slept. *)
Theorem waiting_stops_at_the_first_healthy_check :
  ∀ (world : nat → Check) (maxRetries baseDelay : Z) (i : nat),
    (i < Z.to_nat maxRetries)%nat →
    (∀ j, (j < i)%nat → isHealthy (checkSupabaseHealth (world j)) = false) →
    isHealthy (checkSupabaseHealth (world i)) = true →
    waitForSupabaseConnection world maxRetries baseDelay
    = {| settled := Fulfilled tt; checks := S i; slept := backoff baseDelay 0 i |}.
Proof.
  intros world maxRetries baseDelay i Hi Hbad Hok.
  unfold waitForSupabaseConnection.
  change 1 with (Z.of_nat 0 + 1) at 1.
  rewrite (waitLoop_skip world maxRetries baseDelay i); [|done|lia|lia].
  destruct (Z.to_nat maxRetries - i)%nat as [|left] eqn:E; [lia|].
  cbn [waitLoop Nat.add app]. by rewrite Hok.
Qed.

(** The count of checks only grows, and an iteration adds one. *)
Lemma waitLoop_checks_from world maxRetries baseDelay :
  ∀ (left : nat) (attempt : Z) (done : nat) (naps : list Z),
    (done ≤ checks (waitLoop world maxRetries baseDelay left attempt done naps))%nat.
Proof.
  induction left as [|left IH]; intros attempt done naps; cbn [waitLoop]; [simpl; lia|].
  destruct (isHealthy _); [simpl; lia|].
  destruct (attempt =? maxRetries); [simpl; lia|].
  specialize (IH (attempt + 1) (S done) (naps ++ [baseDelay * 2 ^ (attempt - 1)])). lia.
Qed.

Lemma waitLoop_checks_pos world maxRetries baseDelay left attempt done naps :
  (S done ≤ checks (waitLoop world maxRetries baseDelay (S left) attempt done naps))%nat.
Proof.
  cbn [waitLoop]. destruct (isHealthy _); [simpl; lia|].
  destruct (attempt =? maxRetries); [simpl; lia|]. apply waitLoop_checks_from.
Qed.

(** X22: With [maxRetries] zero or negative the loop body never runs: the wait
    resolves at once without a single health check.  That is the only way
    it makes no check. *)
Theorem waiting_without_retries_checks_nothing :
  ∀ (world : nat → Check) (maxRetries baseDelay : Z),
    (maxRetries ≤ 0 →
     waitForSupabaseConnection world maxRetries baseDelay
     = {| settled := Fulfilled tt; checks := 0; slept := [] |})
    ∧ (checks (waitForSupabaseConnection world maxRetries baseDelay) = 0%nat
       ↔ maxRetries ≤ 0).
Proof.
  intros world maxRetries baseDelay.
  assert (maxRetries ≤ 0 →
          waitForSupabaseConnection world maxRetries baseDelay
          = {| settled := Fulfilled tt; checks := 0; slept := [] |}) as Hzero.
  { intros H. unfold waitForSupabaseConnection.
    replace (Z.to_nat maxRetries) with 0%nat by lia. done. }
  split; [exact Hzero|]. split.
  - intros Hc. destruct (Z_le_gt_dec maxRetries 0) as [|Hpos]; [done|]. exfalso.
    unfold waitForSupabaseConnection in Hc.
    destruct (Z.to_nat maxRetries) as [|left] eqn:E; [lia|].
    pose proof (waitLoop_checks_pos world maxRetries baseDelay left 1 0 []). lia.
  - intros H. by rewrite Hzero.
Qed.

(** The theorem at three attempts, a base delay of 1000 ms and a service
    that never answers in time: naps of 1000 and 2000 ms. *)
Lemma waiting_gives_up_witness :
  1 ≤ 3
  ∧ slept (waitForSupabaseConnection (λ _, mkCheck 0 TimerFires 5000) 3 1000) = [1000; 2000]
  ∧ foldr Z.add 0 (slept (waitForSupabaseConnection (λ _, mkCheck 0 TimerFires 5000) 3 1000))
    = 1000 * (2 ^ (3 - 1) - 1).
Proof.
  split; [lia|]. split; [reflexivity|].
  apply (waiting_gives_up_after_maxRetries (λ _, mkCheck 0 TimerFires 5000) 3 1000);
    [lia|intros j _; reflexivity].
Defined.

(** The theorem at a service that answers the third check. *)
Lemma waiting_stops_witness :
  (2 < Z.to_nat 5)%nat
  ∧ waitForSupabaseConnection
      (λ n, if (n <? 2)%nat then mkCheck 0 TimerFires 5000
            else mkCheck 0 (QuerySettles (Fulfilled (Object 1))) 40)
      5 1000
    = {| settled := Fulfilled tt; checks := 3; slept := backoff 1000 0 2 |}.
Proof.
  split; [simpl; lia|].
  apply (waiting_stops_at_the_first_healthy_check
           (λ n, if (n <? 2)%nat then mkCheck 0 TimerFires 5000
                 else mkCheck 0 (QuerySettles (Fulfilled (Object 1))) 40)
           5 1000 2%nat).
  - simpl; lia.
  - intros j Hj. destruct j as [|[|j]]; [reflexivity|reflexivity|lia].
  - reflexivity.
Defined.

End HealthProps.

(** ** Properties of the database probe *)

Module DatabaseProps.
Import Js Database.

(** X23: [testDatabaseConnection] never throws.  It reports success exactly
    when the query returned without an error or with an error whose message
    contains "No rows"; a thrown error and any other returned error give a
    failure that carries a non-empty error text.  The latency is always
    reported. *)
Theorem database_probe_outcomes :
  ∀ (clock : nat → Z) (response : Settled (option Error)),
    (success (testDatabaseConnection clock response) = true
     ↔ response = Fulfilled None
       ∨ ∃ e, response = Fulfilled (Some e) ∧ includes "No rows" (message e) = true)
    ∧ (success (testDatabaseConnection clock response) = true →
       error (testDatabaseConnection clock response) = None
       ∧ latency (testDatabaseConnection clock response) = Some (clock 1%nat - clock 0%nat))
    ∧ (success (testDatabaseConnection clock response) = false →
       ∃ text, error (testDatabaseConnection clock response) = Some text
               ∧ text ≠ EmptyString)
    ∧ is_Some (latency (testDatabaseConnection clock response)).
Proof.
  intros clock response. unfold testDatabaseConnection.
  destruct response as [[e|]|thrown].
  - destruct (includes "No rows" (message e)) eqn:I; cbn [negb success error latency].
    + split; [split; [intros _; right; by exists e|done]|].
      split; [done|]. split; [done|]. by eexists.
    + split; [split; [done|intros [?|(e' & [= <-] & ?)]; congruence]|].
      split; [done|]. split; [|by eexists].
      intros _. eexists. split; [done|]. by apply HealthProps.messageOr_nonempty.
  - cbn [success error latency].
    split; [split; [by left|done]|]. split; [done|]. split; [done|]. by eexists.
  - cbn [success error latency].
    split; [split; [done|intros [?|(e' & ? & _)]; done]|].
    split; [done|]. split; [|by eexists].
    intros _. eexists. split; [done|]. by apply HealthProps.messageOr_nonempty.
Qed.

End DatabaseProps.

(** ** Properties of the retry helper *)

Module RetryProps.
Import Js Retry.

(** While the calls throw connection errors and attempts remain, the loop
    sleeps and calls again. *)
Lemma retryLoop_skip operation maxRetries baseDelay i :
  ∀ (left done : nat) (naps : list Z),
    (∀ j, (j < i)%nat →
          ∃ e, operation (done + j)%nat = Throws e ∧ isConnectionError e = true) →
    (i < left)%nat →
    Z.of_nat (done + left) = maxRetries →
    retryLoop operation maxRetries baseDelay left (Z.of_nat done + 1) done naps
    = retryLoop operation maxRetries baseDelay (left - i) (Z.of_nat (done + i) + 1) (done + i)
        (naps ++ Health.backoff baseDelay done i).
Proof.
  induction i as [|i IH]; intros left done naps Hbad Hlt Hmax.
  - rewrite Nat.sub_0_r, Nat.add_0_r. unfold Health.backoff; simpl. by rewrite app_nil_r.
  - destruct left as [|left]; [lia|]. cbn [retryLoop].
    destruct (Hbad 0%nat ltac:(lia)) as (e & He & Hconn).
    rewrite Nat.add_0_r in He. rewrite He, Hconn.
    replace (Z.of_nat done + 1 =? maxRetries) with false
      by (symmetry; apply Z.eqb_neq; lia).
    cbn [orb negb].
    replace (Z.of_nat done + 1 + 1) with (Z.of_nat (S done) + 1) by lia.
    replace (Z.of_nat done + 1 - 1) with (Z.of_nat done) by lia.
    rewrite (IH left (S done)); [| |lia|lia].
    + rewrite HealthProps.backoff_S, <- app_assoc. cbn [app Nat.sub].
      replace (S done + i)%nat with (done + S i)%nat by lia. done.
    + intros j Hj. replace (S done + j)%nat with (done + S j)%nat by lia.
      apply Hbad. lia.
Qed.

(** [retryWithBackoff] after [i] connection errors in a row. *)
Lemma retryLoop_from operation maxRetries baseDelay (i : nat) :
  (i < Z.to_nat maxRetries)%nat →
  (∀ j, (j < i)%nat → ∃ e, operation j = Throws e ∧ isConnectionError e = true) →
  retryWithBackoff operation maxRetries baseDelay
  = retryLoop operation maxRetries baseDelay (Z.to_nat maxRetries - i) (Z.of_nat i + 1) i
      (Health.backoff baseDelay 0 i).
Proof.
  intros Hi Hbad. unfold retryWithBackoff.
  change 1 with (Z.of_nat 0 + 1) at 1.
  rewrite (retryLoop_skip operation maxRetries baseDelay i); [done|done|lia|lia].
Qed.

(** X24: The first call that returns ends the retries: its value is the result,
    no further call is made, and the naps slept are [baseDelay],
    [2 * baseDelay], ... one per connection error before it. *)
Theorem retry_returns_the_first_success :
  ∀ (operation : nat → Attempt) (maxRetries baseDelay : Z) (i : nat) (v : Value),
    (i < Z.to_nat maxRetries)%nat →
    (∀ j, (j < i)%nat → ∃ e, operation j = Throws e ∧ isConnectionError e = true) →
    operation i = Returns v →
    retryWithBackoff operation maxRetries baseDelay
    = {| result := Returns v; invocations := S i; slept := Health.backoff baseDelay 0 i |}.
Proof.
  intros operation maxRetries baseDelay i v Hi Hbad Hok.
  rewrite (retryLoop_from operation maxRetries baseDelay i Hi Hbad).
  destruct (Z.to_nat maxRetries - i)%nat as [|left] eqn:E; [lia|].
  cbn [retryLoop]. by rewrite Hok.
Qed.

(** X25: What ends the retries at once.  An object thrown that is not a
    connection error is rethrown as it is; a thrown [null] or [undefined]
    makes the [catch] itself throw, on reading [error.message], and it is
    that [TypeError] which comes out.  In both cases no nap and no further
    call follow, however many attempts remain. *)
Theorem retry_rethrows_other_errors_at_once :
  ∀ (operation : nat → Attempt) (maxRetries baseDelay : Z) (i : nat),
    (i < Z.to_nat maxRetries)%nat →
    (∀ j, (j < i)%nat → ∃ e', operation j = Throws e' ∧ isConnectionError e' = true) →
    (∀ e, operation i = Throws e →
          isConnectionError e = false →
          retryWithBackoff operation maxRetries baseDelay
          = {| result := Throws e; invocations := S i;
               slept := Health.backoff baseDelay 0 i |})
    ∧ (∀ typeError, operation i = ThrowsNullish typeError →
          retryWithBackoff operation maxRetries baseDelay
          = {| result := Throws typeError; invocations := S i;
               slept := Health.backoff baseDelay 0 i |}).
Proof.
  intros operation maxRetries baseDelay i Hi Hbad.
  rewrite (retryLoop_from operation maxRetries baseDelay i Hi Hbad).
  destruct (Z.to_nat maxRetries - i)%nat as [|left] eqn:E; [lia|].
  cbn [retryLoop]. split.
  - intros e He Hconn. rewrite He, Hconn. by rewrite orb_true_r.
  - intros typeError He. by rewrite He.
Qed.

(** X26: When every call but the last throws a connection error, the
    operation is called exactly [maxRetries] times, with [maxRetries - 1]
    naps in between, and what the last call threw decides: an object is
    thrown on as it is, whatever its kind, and "Max retries exceeded" is
    not; a [null] or [undefined] makes the [catch] throw its [TypeError]
    instead, since [error.message] is read before the attempt is compared
    with [maxRetries]. *)
Theorem retry_gives_up_with_the_last_error :
  ∀ (operation : nat → Attempt) (maxRetries baseDelay : Z),
    1 ≤ maxRetries →
    (∀ j, (j < Z.to_nat maxRetries - 1)%nat →
          ∃ e', operation j = Throws e' ∧ isConnectionError e' = true) →
    (∀ e, operation (Z.to_nat maxRetries - 1)%nat = Throws e →
          retryWithBackoff operation maxRetries baseDelay
          = {| result := Throws e;
               invocations := Z.to_nat maxRetries;
               slept := Health.backoff baseDelay 0 (Z.to_nat maxRetries - 1) |})
    ∧ (∀ typeError, operation (Z.to_nat maxRetries - 1)%nat = ThrowsNullish typeError →
          retryWithBackoff operation maxRetries baseDelay
          = {| result := Throws typeError;
               invocations := Z.to_nat maxRetries;
               slept := Health.backoff baseDelay 0 (Z.to_nat maxRetries - 1) |}).
Proof.
  intros operation maxRetries baseDelay Hmax Hbad.
  rewrite (retryLoop_from operation maxRetries baseDelay (Z.to_nat maxRetries - 1));
    [|lia|done].
  replace (Z.to_nat maxRetries - (Z.to_nat maxRetries - 1))%nat with 1%nat by lia.
  cbn [retryLoop]. split.
  - intros e He. rewrite He.
    replace (Z.of_nat (Z.to_nat maxRetries - 1) + 1 =? maxRetries) with true
      by (symmetry; apply Z.eqb_eq; lia).
    cbn [orb]. f_equal. lia.
  - intros typeError He. rewrite He. f_equal. lia.
Qed.

(** The count of calls only grows, by at most one per iteration left. *)
Lemma retryLoop_invocations_from operation maxRetries baseDelay :
  ∀ (left : nat) (attempt : Z) (done : nat) (naps : list Z),
    (done ≤ invocations (retryLoop operation maxRetries baseDelay left attempt done naps)
     ≤ done + left)%nat.
Proof.
  induction left as [|left IH]; intros attempt done naps; cbn [retryLoop]; [simpl; lia|].
  destruct (operation done) as [v|e|typeError]; [simpl; lia| |simpl; lia].
  destruct ((attempt =? maxRetries) || negb (isConnectionError e)); [simpl; lia|].
  specialize (IH (attempt + 1) (S done) (naps ++ [baseDelay * 2 ^ (attempt - 1)])). lia.
Qed.

Lemma retryLoop_invocations_pos operation maxRetries baseDelay left attempt done naps :
  (S done ≤ invocations (retryLoop operation maxRetries baseDelay (S left) attempt done naps))%nat.
Proof.
  cbn [retryLoop]. destruct (operation done) as [v|e|typeError]; [simpl; lia| |simpl; lia].
  destruct ((attempt =? maxRetries) || negb (isConnectionError e)); [simpl; lia|].
  apply retryLoop_invocations_from.
Qed.

(** X27: The operation is never called more than [maxRetries] times.  With
    [maxRetries] zero or negative it is not called at all and "Max retries
    exceeded" is thrown; with [maxRetries >= 1] it is called at least
    once. *)
Theorem retry_calls_at_most_maxRetries_times :
  ∀ (operation : nat → Attempt) (maxRetries baseDelay : Z),
    (invocations (retryWithBackoff operation maxRetries baseDelay) ≤ Z.to_nat maxRetries)%nat
    ∧ (maxRetries ≤ 0 →
       retryWithBackoff operation maxRetries baseDelay
       = {| result := Throws maxRetriesExceeded; invocations := 0; slept := [] |})
    ∧ (invocations (retryWithBackoff operation maxRetries baseDelay) = 0%nat
       ↔ maxRetries ≤ 0).
Proof.
  intros operation maxRetries baseDelay.
  assert (maxRetries ≤ 0 →
          retryWithBackoff operation maxRetries baseDelay
          = {| result := Throws maxRetriesExceeded; invocations := 0; slept := [] |}) as Hzero.
  { intros H. unfold retryWithBackoff.
    replace (Z.to_nat maxRetries) with 0%nat by lia. done. }
  split; [|split; [exact Hzero|split]].
  - unfold retryWithBackoff.
    pose proof (retryLoop_invocations_from operation maxRetries baseDelay
                  (Z.to_nat maxRetries) 1 0 []). lia.
  - intros Hc. destruct (Z_le_gt_dec maxRetries 0) as [|Hpos]; [done|]. exfalso.
    unfold retryWithBackoff in Hc.
    destruct (Z.to_nat maxRetries) as [|left] eqn:E; [lia|].
    pose proof (retryLoop_invocations_pos operation maxRetries baseDelay left 1 0 []). lia.
  - intros H. by rewrite Hzero.
Qed.

(** The theorem at two connection resets followed by a value. *)
Lemma retry_success_witness :
  (2 < Z.to_nat 3)%nat
  ∧ retryWithBackoff
      (λ n, if (n <? 2)%nat
            then Throws {| message := Some "socket hang up"; code := Some "ECONNRESET" |}
            else Returns (Str "seeded"))
      3 1000
    = {| result := Returns (Str "seeded"); invocations := 3; slept := [1000; 2000] |}.
Proof.
  split; [simpl; lia|].
  apply (retry_returns_the_first_success
           (λ n, if (n <? 2)%nat
                 then Throws {| message := Some "socket hang up"; code := Some "ECONNRESET" |}
                 else Returns (Str "seeded"))
           3 1000 2%nat (Str "seeded")).
  - simpl; lia.
  - intros j Hj. destruct j as [|[|j]]; [by eexists|by eexists|lia].
  - reflexivity.
Defined.

(** The theorem at a duplicate-key error on the first call. *)
Lemma retry_other_error_witness :
  isConnectionError {| message := Some "duplicate key value"; code := None |} = false
  ∧ retryWithBackoff
      (λ _, Throws {| message := Some "duplicate key value"; code := None |}) 3 1000
    = {| result := Throws {| message := Some "duplicate key value"; code := None |};
         invocations := 1; slept := [] |}.
Proof.
  split; [reflexivity|].
  destruct (retry_rethrows_other_errors_at_once
              (λ _, Throws {| message := Some "duplicate key value"; code := None |})
              3 1000 0%nat) as [Hobject _].
  - simpl; lia.
  - intros j Hj. lia.
  - apply Hobject; reflexivity.
Defined.

(** An operation that throws [undefined] on its first call: the
    [TypeError] of the [catch] comes out, after one call and no nap. *)
Example retry_on_a_thrown_undefined :
  retryWithBackoff
    (λ _, ThrowsNullish
            {| message := Some "undefined is not an object (evaluating 'error.message')";
               code := None |}) 3 1000
  = {| result := Throws {| message := Some "undefined is not an object (evaluating 'error.message')";
                           code := None |};
       invocations := 1; slept := [] |}.
Proof. reflexivity. Qed.

(** The theorem at a service that times out on each of three calls. *)
Lemma retry_gives_up_witness :
  1 ≤ 3
  ∧ retryWithBackoff (λ _, Throws {| message := Some "CONNECT_TIMEOUT db"; code := None |}) 3 1000
    = {| result := Throws {| message := Some "CONNECT_TIMEOUT db"; code := None |};
         invocations := 3; slept := [1000; 2000] |}.
Proof.
  split; [lia|].
  destruct (retry_gives_up_with_the_last_error
              (λ _, Throws {| message := Some "CONNECT_TIMEOUT db"; code := None |}) 3 1000)
    as [Hobject _].
  - lia.
  - intros j _. by eexists.
  - apply Hobject; reflexivity.
Defined.

End RetryProps.
